(** * Hierarchical state machine engine: a shallow embedding

    This development embeds [hierarchicalStateMachine.go] in Rocq and
    states the properties of its specification over that embedding.

    Modelling conventions.
    - A [*State] pointer is an address ([StateRef], a [nat]) or [nil]
      ([None]).  The [State] objects live in a store [deref] that stays
      fixed while the engine runs: the engine never writes a [State].
    - Callbacks ([Action], [Predicate]) are Go closures.  They run on the
      caller-owned part of memory, the [World], which they may change, and
      they may read the exported [CurrentState] field of the engine, which
      they receive as their first argument; they do not write it.
    - Loops that follow [ParentState] links need not terminate when the
      ancestry is cyclic, so they take a fuel argument.  A run ends in
      [Done], in a Go run-time panic ([Panicked]) or without fuel
      ([Diverged]). *)

From stdpp Require Import base decidable option list strings pretty.

(** ** Results of a run *)

Inductive PanicKind : Type :=
  | IndexOutOfRange
  | NilDereference.

Inductive Outcome (A : Type) : Type :=
  | Done (a : A)
  | Panicked (p : PanicKind)
  | Diverged.

Arguments Done {A} a.
Arguments Panicked {A} p.
Arguments Diverged {A}.

#[global] Instance Outcome_ret : MRet Outcome := fun A a => Done a.

#[global] Instance Outcome_bind : MBind Outcome := fun A B f m =>
  match m with
  | Done a => f a
  | Panicked p => Panicked p
  | Diverged => Diverged
  end.

(** ** Data model *)

(** [const MaxStates = 10] *)
Definition MaxStates : nat := 10.

Definition StateName : Type := string.

(** [*State] *)
Definition StateRef : Type := nat.

Section Engine.

Context {World : Type}.

(** [type Predicate func() bool] *)
Definition Predicate : Type := option StateRef -> World -> bool * World.

(** [type Action func()] *)
Definition Action : Type := option StateRef -> World -> World.

Record State : Type := {
  Name : StateName;
  Entry : list Action;
  Exit : list Action;
  Handle : list Action;
  ParentState : option StateRef
}.

Record Transition : Type := {
  tr_CurrentState : option StateRef;
  tr_Event : Predicate;
  tr_Guards : list Predicate;
  tr_Actions : list Action;
  tr_NextState : option StateRef
}.

Record HierarchicalStateMachine : Type := {
  CurrentState : option StateRef;
  states : list State;
  transitions : list Transition
}.

(** The store of [State] objects. *)
Variable deref : StateRef -> State.

(** ** Fixed-size arrays of pointers *)

(** [var a [MaxStates]*State] *)
Definition newArray : list (option StateRef) := replicate MaxStates None.

(** [a[i] = v], with Go's bounds check. *)
Definition arrayStore (a : list (option StateRef)) (i : nat)
    (v : option StateRef) : Outcome (list (option StateRef)) :=
  if bool_decide (i < length a) then Done (<[i := v]> a)
  else Panicked IndexOutOfRange.

(** ** Operations *)

(** [executeActions] *)
Fixpoint executeActions (actions : list Action) (cur : option StateRef)
    (w : World) : World :=
  match actions with
  | [] => w
  | action :: rest => executeActions rest cur (action cur w)
  end.

(** [executeActionsInHierarchy]: parent actions are executed first. *)
Fixpoint executeActionsInHierarchy (fuel : nat) (state : option StateRef)
    (actions : State -> list Action) (cur : option StateRef) (w : World)
    : Outcome World :=
  match state with
  | None => Done w
  | Some s =>
      match fuel with
      | 0 => Diverged
      | S fuel' =>
          w' ← executeActionsInHierarchy fuel' (ParentState (deref s))
                 actions cur w;
          Done (executeActions (actions (deref s)) cur w')
      end
  end.

(** First loop of [findCommonAncestor]: record the chain of [state1]. *)
Fixpoint findCommonAncestor_collect (fuel : nat) (state1 : option StateRef)
    (visited : list (option StateRef)) (visitedCount : nat)
    : Outcome (list (option StateRef) * nat) :=
  match state1 with
  | None => Done (visited, visitedCount)
  | Some s =>
      match fuel with
      | 0 => Diverged
      | S fuel' =>
          visited' ← arrayStore visited visitedCount state1;
          findCommonAncestor_collect fuel' (ParentState (deref s))
            visited' (visitedCount + 1)
      end
  end.

(** Inner loop of [findCommonAncestor]:
    [for i := 0; i < visitedCount; i++ { if state2 == visited[i] ... }] *)
Definition visitedContains (visited : list (option StateRef))
    (visitedCount : nat) (state2 : option StateRef) : bool :=
  existsb (fun i => bool_decide (visited !! i = Some state2))
    (seq 0 visitedCount).

(** Second loop of [findCommonAncestor]: walk the chain of [state2]. *)
Fixpoint findCommonAncestor_search (fuel : nat) (state2 : option StateRef)
    (visited : list (option StateRef)) (visitedCount : nat)
    : Outcome (option StateRef) :=
  match state2 with
  | None => Done None
  | Some s =>
      if visitedContains visited visitedCount state2 then Done state2
      else
        match fuel with
        | 0 => Diverged
        | S fuel' =>
            findCommonAncestor_search fuel' (ParentState (deref s))
              visited visitedCount
        end
  end.

(** [findCommonAncestor]: the deepest common ancestor of the two states. *)
Definition findCommonAncestor (fuel : nat) (state1 state2 : option StateRef)
    : Outcome (option StateRef) :=
  '(visited, visitedCount) ←
     findCommonAncestor_collect fuel state1 newArray 0;
  findCommonAncestor_search fuel state2 visited visitedCount.

(** [exitToCommonAncestor] *)
Fixpoint exitToCommonAncestor (fuel : nat)
    (state commonAncestor : option StateRef) (cur : option StateRef)
    (w : World) : Outcome World :=
  if bool_decide (state = commonAncestor) then Done w
  else
    match fuel with
    | 0 => Diverged
    | S fuel' =>
        match state with
        | None => Panicked NilDereference
        | Some s =>
            exitToCommonAncestor fuel' (ParentState (deref s))
              commonAncestor cur (executeActions (Exit (deref s)) cur w)
        end
    end.

(** First loop of [enterFromCommonAncestor]: push the chain on the stack. *)
Fixpoint enterFromCommonAncestor_push (fuel : nat)
    (state commonAncestor : option StateRef)
    (stack : list (option StateRef)) (stackCount : nat)
    : Outcome (list (option StateRef) * nat) :=
  if bool_decide (state = commonAncestor) then Done (stack, stackCount)
  else
    match fuel with
    | 0 => Diverged
    | S fuel' =>
        stack' ← arrayStore stack stackCount state;
        match state with
        | None => Panicked NilDereference
        | Some s =>
            enterFromCommonAncestor_push fuel' (ParentState (deref s))
              commonAncestor stack' (stackCount + 1)
        end
    end.

(** Second loop of [enterFromCommonAncestor]:
    [for i := stackCount - 1; i >= 0; i-- { executeActions(stack[i].Entry) }];
    the argument [n] is [i + 1]. *)
Fixpoint enterFromCommonAncestor_pop (stack : list (option StateRef))
    (n : nat) (cur : option StateRef) (w : World) : Outcome World :=
  match n with
  | 0 => Done w
  | S i =>
      match stack !! i with
      | None => Panicked IndexOutOfRange
      | Some None => Panicked NilDereference
      | Some (Some s) =>
          enterFromCommonAncestor_pop stack i cur
            (executeActions (Entry (deref s)) cur w)
      end
  end.

(** [enterFromCommonAncestor] *)
Definition enterFromCommonAncestor (fuel : nat)
    (state commonAncestor : option StateRef) (cur : option StateRef)
    (w : World) : Outcome World :=
  '(stack, stackCount) ←
     enterFromCommonAncestor_push fuel state commonAncestor newArray 0;
  enterFromCommonAncestor_pop stack stackCount cur w.

(** [executeTransitionActions] *)
Definition executeTransitionActions (fuel : nat) (transition : Transition)
    (cur : option StateRef) (w : World) : Outcome World :=
  commonAncestor ←
    findCommonAncestor fuel (tr_CurrentState transition)
      (tr_NextState transition);
  w1 ← exitToCommonAncestor fuel (tr_CurrentState transition)
         commonAncestor cur w;
  enterFromCommonAncestor fuel (tr_NextState transition) commonAncestor cur
    (executeActions (tr_Actions transition) cur w1).

(** The guard loop of [HandleStateMachine]; the result is [guardsPassed]. *)
Fixpoint evalGuards (guards : list Predicate) (cur : option StateRef)
    (w : World) : bool * World :=
  match guards with
  | [] => (true, w)
  | guard :: rest =>
      let '(b, w1) := guard cur w in
      if negb b then (false, w1) else evalGuards rest cur w1
  end.

(** The transition loop of [HandleStateMachine]. *)
Fixpoint HandleStateMachine_scan (fuel : nat) (sm : HierarchicalStateMachine)
    (ts : list Transition) (w : World)
    : Outcome (HierarchicalStateMachine * World) :=
  match ts with
  | [] => Done (sm, w)
  | transition :: rest =>
      if bool_decide (CurrentState sm = tr_CurrentState transition) then
        let '(ev, w1) := tr_Event transition (CurrentState sm) w in
        if negb ev then HandleStateMachine_scan fuel sm rest w1
        else
          let '(guardsPassed, w2) :=
            evalGuards (tr_Guards transition) (CurrentState sm) w1 in
          if negb guardsPassed then HandleStateMachine_scan fuel sm rest w2
          else
            w3 ← executeTransitionActions fuel transition
                   (CurrentState sm) w2;
            Done ({| CurrentState := tr_NextState transition;
                     states := states sm;
                     transitions := transitions sm |}, w3)
      else HandleStateMachine_scan fuel sm rest w
  end.

(** [HandleStateMachine] *)
Definition HandleStateMachine (fuel : nat) (sm : HierarchicalStateMachine)
    (w : World) : Outcome (HierarchicalStateMachine * World) :=
  w1 ← executeActionsInHierarchy fuel (CurrentState sm) Handle
         (CurrentState sm) w;
  HandleStateMachine_scan fuel sm (transitions sm) w1.

(** The message of
    [fmt.Errorf("too many states declared: %d. max allowed is %d", ...)] *)
Definition tooManyStates (declared bound : nat) : string :=
  ("too many states declared: " +:+ pretty declared +:+
   ". max allowed is " +:+ pretty bound)%string.

(** [NewHierarchicalStateMachine]: the first two components of the result
    are the engine pointer and the error that the Go function returns. *)
Definition NewHierarchicalStateMachine (fuel : nat)
    (initialState : option StateRef) (states0 : list State)
    (transitions0 : list Transition) (w : World)
    : Outcome (option HierarchicalStateMachine * option string * World) :=
  if bool_decide (MaxStates < length states0) then
    Done (None, Some (tooManyStates (length states0) MaxStates), w)
  else
    let sm := {| CurrentState := initialState;
                 states := states0;
                 transitions := transitions0 |} in
    w' ← executeActionsInHierarchy fuel (CurrentState sm) Entry
           (CurrentState sm) w;
    Done (Some sm, None, w').

(** ** Vocabulary of the specification *)

(** [ancestry s l]: [l] is the ancestry chain of [s], from [s] itself
    outward to its root ancestor.  A state has such a (finite) chain exactly
    when following its parent links ends, that is, when its ancestry is
    acyclic. *)
Fixpoint ancestry (s : option StateRef) (l : list StateRef) : Prop :=
  match l with
  | [] => s = None
  | x :: l' => s = Some x ∧ ancestry (ParentState (deref x)) l'
  end.

(** The part of a chain that lies strictly before the state [a]; the
    whole chain when [a] is [None] or not on it. *)
Fixpoint upTo (a : option StateRef) (l : list StateRef) : list StateRef :=
  match l with
  | [] => []
  | x :: l' => if bool_decide (Some x = a) then [] else x :: upTo a l'
  end.

(** The first state of the chain [lt] that also lies on the chain [ls]. *)
Fixpoint firstCommon (ls lt : list StateRef) : option StateRef :=
  match lt with
  | [] => None
  | x :: lt' => if bool_decide (x ∈ ls) then Some x else firstCommon ls lt'
  end.

(** The actions that a selector ([Entry], [Exit], [Handle]) gives for the
    states of a list, state after state. *)
Definition actionsOf (actions : State -> list Action) (l : list StateRef)
    : list Action :=
  flat_map (fun x => actions (deref x)) l.

(** [a] is [nil] or a state of the chain [l]. *)
Definition onChain (a : option StateRef) (l : list StateRef) : Prop :=
  match a with
  | None => True
  | Some x => x ∈ l
  end.

(** The callbacks of a transition whose common ancestor is [a], in the
    order of the specification: the exit actions from the source outward
    to [a] (exclusive), the actions of the transition, the entry actions
    from [a] (exclusive) inward to the target.  [ls] and [lt] are the
    chains of the source and of the target. *)
Definition transitionEffectsVia (a : option StateRef) (t : Transition)
    (ls lt : list StateRef) : list Action :=
  actionsOf Exit (upTo a ls) ++
  tr_Actions t ++
  actionsOf Entry (rev (upTo a lt)).

(** The same with the first common state of the chains as ancestor. *)
Definition transitionEffects (t : Transition) (ls lt : list StateRef)
    : list Action :=
  transitionEffectsVia (firstCommon ls lt) t ls lt.

(** Evaluate every predicate of a list in order, whatever the results. *)
Fixpoint evalAll (ps : list Predicate) (cur : option StateRef) (w : World)
    : list bool * World :=
  match ps with
  | [] => ([], w)
  | p :: rest =>
      let '(b, w1) := p cur w in
      let '(bs, w2) := evalAll rest cur w1 in
      (b :: bs, w2)
  end.

(** Every callback of a list is applied once, in the order of the list,
    each to the world left by the one before. *)
Definition inOrder (actions : list Action) (cur : option StateRef)
    (w : World) : World :=
  foldl (fun (w' : World) (action : Action) => action cur w') w actions.

(** The verdict on a list of guards: the guards are evaluated in the order
    of the list, each in the world left by the one before, as long as they
    hold; the verdict is whether all of them held, and the world is the one
    left by the last guard evaluated. *)
Definition guardsVerdict (guards : list Predicate) (cur : option StateRef)
    (w : World) : bool * World :=
  foldl (fun (acc : bool * World) (guard : Predicate) =>
           if acc.1 then guard cur acc.2 else acc)
    (true, w) guards.

(** A transition matches: its source is the current state, its event
    holds, and its guards, evaluated in order up to the first false one,
    all hold.  The world returned is the one after these evaluations. *)
Definition transitionMatches (t : Transition) (cur : option StateRef)
    (w : World) : bool * World :=
  if bool_decide (cur = tr_CurrentState t) then
    let '(ev, w1) := tr_Event t cur w in
    if ev then guardsVerdict (tr_Guards t) cur w1 else (false, w1)
  else (false, w).

(** No transition of the list matches; the result is the world after the
    predicates that were evaluated to find this out. *)
Fixpoint noneMatches (ts : list Transition) (cur : option StateRef)
    (w : World) : option World :=
  match ts with
  | [] => Some w
  | t :: rest =>
      let '(m, w1) := transitionMatches t cur w in
      if m then None else noneMatches rest cur w1
  end.

(** A predicate that leaves the world as it is. *)
Definition purePredicate (p : Predicate) : Prop :=
  ∀ cur w, (p cur w).2 = w.

(** The engine after a transition to [target]. *)
Definition moveTo (sm : HierarchicalStateMachine) (target : option StateRef)
    : HierarchicalStateMachine :=
  {| CurrentState := target;
     states := states sm;
     transitions := transitions sm |}.

(** ** Vocabulary for the shape of the state graph *)

(** The state reached from [s] by [n] steps along [ParentState]. *)
Fixpoint ancestorAt (n : nat) (s : option StateRef) : option StateRef :=
  match n with
  | 0 => s
  | S n' =>
      match s with
      | None => None
      | Some x => ancestorAt n' (ParentState (deref x))
      end
  end.

(** The chain of [s] ends within [n] states. *)
Fixpoint rootWithin (n : nat) (s : option StateRef) : bool :=
  match s with
  | None => true
  | Some x =>
      match n with
      | 0 => false
      | S n' => rootWithin n' (ParentState (deref x))
      end
  end.

(** The check that the engine leaves to its caller: the chain of the
    current state and the chain of every target fit the scratch arrays. *)
Definition chainsFit (sm : HierarchicalStateMachine) : bool :=
  rootWithin MaxStates (CurrentState sm) &&
  forallb (fun t => rootWithin MaxStates (tr_NextState t)) (transitions sm).

End Engine.

(** ** Machines of the test suite

    The callbacks of the tests append their name to a global log; the world
    is that log. *)

Module Fixture.

Local Open Scope string_scope.

Definition Log : Type := list string.

(** [recordAction] of the test file. *)
Definition recordAction (actionName : string) : @Action Log :=
  fun _ w => (w ++ [actionName])%list.

(** An action that also logs the current state it reads from the engine. *)
Definition recordView (actionName : string) : @Action Log :=
  fun cur w =>
    (w ++ [actionName +:+ " sees " +:+
           match cur with None => "nil" | Some s => pretty s end])%list.

(** A predicate that logs its invocation and returns [b]. *)
Definition recordPredicate (name : string) (b : bool) : @Predicate Log :=
  fun _ w => (b, (w ++ [name])%list).

(** [func() bool { return true }] *)
Definition always : @Predicate Log := fun _ w => (true, w).

Definition mkState (name : string) (parent : option StateRef) : @State Log :=
  {| Name := name;
     Entry := [recordAction (name +:+ " Entry")];
     Exit := [recordAction (name +:+ " Exit")];
     Handle := [recordAction (name +:+ " Handle")];
     ParentState := parent |}.

Definition mkTransition (source target : option StateRef) (name : string)
    : @Transition Log :=
  {| tr_CurrentState := source;
     tr_Event := always;
     tr_Guards := [];
     tr_Actions := [recordAction name];
     tr_NextState := target |}.

(** The states of [TestNestedStates]: [parentState2] (address 0) contains
    [state2] (3) and [parentState] (1), which contains [state1] (2);
    [state3] (4) has no parent. *)
Definition nested (r : StateRef) : @State Log :=
  match r with
  | 0 => mkState "Parent State 2" None
  | 1 => mkState "Parent State" (Some 0)
  | 2 => mkState "State 1" (Some 1)
  | 3 => mkState "State 2" (Some 0)
  | _ => mkState "State 3" None
  end.

Definition nestedStates : list (@State Log) :=
  [nested 2; nested 3; nested 4; nested 1; nested 0].

Definition nestedTransitions : list (@Transition Log) :=
  [ mkTransition (Some 2) (Some 3) "State 1 -> State 2 Transition";
    mkTransition (Some 3) (Some 4) "State 2 -> State 3 Transition";
    mkTransition (Some 4) (Some 2) "State 3 -> Parent State Transition" ].

Definition nestedMachine (cur : option StateRef)
    : @HierarchicalStateMachine Log :=
  {| CurrentState := cur;
     states := nestedStates;
     transitions := nestedTransitions |}.

(** A store with chains of every length: the parent of state [n + 1] is
    state [n], and state [0] is a root. *)
Definition tower (r : StateRef) : @State Log :=
  mkState (pretty r) (match r with 0 => None | S k => Some k end).

(** A store with cyclic ancestry: every state is its own parent. *)
Definition looped (r : StateRef) : @State Log :=
  mkState (pretty r) (Some r).

(** The states of [nested] with callbacks that log the current state
    they read. *)
Definition watched (r : StateRef) : @State Log :=
  {| Name := Name (nested r);
     Entry := [recordView (Name (nested r) +:+ " Entry")];
     Exit := [recordView (Name (nested r) +:+ " Exit")];
     Handle := [recordView (Name (nested r) +:+ " Handle")];
     ParentState := ParentState (nested r) |}.

Definition watchedTransition : @Transition Log :=
  {| tr_CurrentState := Some 2;
     tr_Event := always;
     tr_Guards := [];
     tr_Actions := [recordView "Transition"];
     tr_NextState := Some 3 |}.

Definition watchedMachine : @HierarchicalStateMachine Log :=
  {| CurrentState := Some 2;
     states := nestedStates;
     transitions := [watchedTransition] |}.

(** Two transitions leave [state1]; both events hold. *)
Definition rivalTransitions : list (@Transition Log) :=
  [ mkTransition (Some 4) (Some 2) "State 3 -> State 1 Transition";
    mkTransition (Some 2) (Some 3) "First Transition";
    mkTransition (Some 2) (Some 4) "Second Transition" ].

Definition rivalMachine : @HierarchicalStateMachine Log :=
  {| CurrentState := Some 2;
     states := nestedStates;
     transitions := rivalTransitions |}.

(** A transition whose first guard fails; every predicate logs its
    invocation. *)
Definition guardedTransition : @Transition Log :=
  {| tr_CurrentState := Some 2;
     tr_Event := recordPredicate "event" true;
     tr_Guards := [recordPredicate "g1" false; recordPredicate "g2" true];
     tr_Actions := [recordAction "Guarded Transition"];
     tr_NextState := Some 3 |}.

Definition guardedMachine : @HierarchicalStateMachine Log :=
  {| CurrentState := Some 2;
     states := nestedStates;
     transitions := [guardedTransition] |}.

(** What the tests look at after a tick: the current state and the log. *)
Definition observed
    (o : Outcome (@HierarchicalStateMachine Log * Log))
    : Outcome (option StateRef * Log) :=
  '(sm, w) ← o; Done (CurrentState sm, w).

(** An engine on the eleventh state of [tower], with no declared state. *)
Definition towerMachine : @HierarchicalStateMachine Log :=
  {| CurrentState := Some 10;
     states := [];
     transitions := [mkTransition (Some 10) (Some 3) "Down"] |}.

(** An engine on a state of [looped]. *)
Definition loopedMachine : @HierarchicalStateMachine Log :=
  {| CurrentState := Some 0;
     states := [];
     transitions := [mkTransition (Some 0) (Some 1) "Round"] |}.

(** An engine on the fourth state of [tower] with a transition to the
    sixteenth. *)
Definition tallTransition : @Transition Log :=
  mkTransition (Some 3) (Some 15) "Up".

Definition tallMachine : @HierarchicalStateMachine Log :=
  {| CurrentState := Some 3;
     states := [];
     transitions := [tallTransition] |}.

(** Transitions that compete for [state1]; every predicate logs its
    invocation.  The first has another source, the second a false guard,
    the third a false event; the fourth and the fifth hold. *)
Definition elsewhereTransition : @Transition Log :=
  mkTransition (Some 4) (Some 2) "Elsewhere".

Definition blockedTransition : @Transition Log :=
  {| tr_CurrentState := Some 2;
     tr_Event := recordPredicate "e1" true;
     tr_Guards := [recordPredicate "g1" false];
     tr_Actions := [recordAction "Blocked"];
     tr_NextState := Some 4 |}.

Definition idleTransition : @Transition Log :=
  {| tr_CurrentState := Some 2;
     tr_Event := recordPredicate "e2" false;
     tr_Guards := [recordPredicate "g2" true];
     tr_Actions := [recordAction "Idle"];
     tr_NextState := Some 4 |}.

Definition chosenTransition : @Transition Log :=
  {| tr_CurrentState := Some 2;
     tr_Event := recordPredicate "e3" true;
     tr_Guards := [recordPredicate "g3a" true; recordPredicate "g3b" true];
     tr_Actions := [recordAction "Chosen"];
     tr_NextState := Some 3 |}.

Definition lateTransition : @Transition Log :=
  {| tr_CurrentState := Some 2;
     tr_Event := recordPredicate "e4" true;
     tr_Guards := [];
     tr_Actions := [recordAction "Late"];
     tr_NextState := Some 4 |}.

Definition contestedMachine : @HierarchicalStateMachine Log :=
  {| CurrentState := Some 2;
     states := nestedStates;
     transitions :=
       [elsewhereTransition; blockedTransition; idleTransition;
        chosenTransition; lateTransition] |}.

End Fixture.

(** * Properties *)

Section Properties.

Context {World : Type}.
Variable deref : StateRef -> @State World.

Implicit Types (s a cur : option StateRef) (l ls lt : list StateRef).
Implicit Types (w : World) (fuel : nat).

(** ** Running lists of actions *)

Lemma executeActions_app (xs ys : list Action) cur w :
  executeActions (xs ++ ys) cur w =
  executeActions ys cur (executeActions xs cur w).
Proof.
  revert w. induction xs as [|x xs IH]; intros w; simpl; [done|]. apply IH.
Qed.

(** The loop of [executeActions] applies every action once, in order. *)
Lemma executeActions_inOrder (xs : list Action) cur w :
  executeActions xs cur w = inOrder xs cur w.
Proof.
  revert w. induction xs as [|x xs IH]; intros w; simpl; [done|]. apply IH.
Qed.

Lemma actionsOf_app (sel : State -> list Action) l1 l2 :
  actionsOf deref sel (l1 ++ l2) =
  actionsOf deref sel l1 ++ actionsOf deref sel l2.
Proof. unfold actionsOf. apply flat_map_app. Qed.

(** ** Ancestry chains *)

Lemma ancestry_functional s l1 l2 :
  ancestry deref s l1 → ancestry deref s l2 → l1 = l2.
Proof.
  revert s l2. induction l1 as [|x l1 IH]; intros s [|y l2]; simpl.
  - done.
  - intros -> [? _]. done.
  - intros [-> _] ?. done.
  - intros [-> H1] [[= <-] H2]. f_equal. eauto.
Qed.

Lemma ancestry_suffix s l1 x l2 :
  ancestry deref s (l1 ++ x :: l2) → ancestry deref (Some x) (x :: l2).
Proof.
  revert s. induction l1 as [|y l1 IH]; intros s; simpl.
  - intros [_ H]. by split.
  - intros [_ H]. by apply (IH _ H).
Qed.

(** An acyclic chain visits every state at most once. *)
Lemma ancestry_NoDup s l : ancestry deref s l → NoDup l.
Proof.
  revert s. induction l as [|x l IH]; intros s; simpl.
  - constructor.
  - intros [-> H]. constructor; [|eauto].
    intros Hin. apply list_elem_of_split in Hin as (l1 & l2 & ->).
    pose proof (ancestry_suffix _ _ _ _ H) as [_ Hx]. simpl in Hx.
    pose proof (ancestry_functional _ _ _ H Hx) as Heq.
    apply (f_equal length) in Heq. rewrite length_app in Heq.
    simpl in Heq. lia.
Qed.

(** The chain read from its root visits every state at most once too. *)
Lemma ancestry_NoDup_rev s l : ancestry deref s l → NoDup (rev l).
Proof.
  intros H%ancestry_NoDup. by rewrite <- Permutation_rev.
Qed.

(** ** Hierarchical dispatch *)

Lemma executeActionsInHierarchy_chain fuel s l
    (sel : State -> list Action) cur w :
  ancestry deref s l → length l ≤ fuel →
  executeActionsInHierarchy deref fuel s sel cur w =
  Done (executeActions (actionsOf deref sel (rev l)) cur w).
Proof.
  revert s l w. induction fuel as [|fuel IH]; intros s [|x l] w; simpl.
  - intros -> _. done.
  - intros _ ?. lia.
  - intros -> _. done.
  - intros [-> H] Hlen.
    rewrite (IH _ l) by (done || lia). simpl.
    by rewrite actionsOf_app, executeActions_app; simpl; rewrite app_nil_r.
Qed.

(** With cyclic ancestry the dispatch never returns. *)
Lemma executeActionsInHierarchy_no_chain fuel s
    (sel : State -> list Action) cur w w' :
  executeActionsInHierarchy deref fuel s sel cur w = Done w' →
  ∃ l, ancestry deref s l ∧ length l ≤ fuel.
Proof.
  revert s w'. induction fuel as [|fuel IH]; intros [x|] w'; simpl.
  - done.
  - intros _. exists []. simpl. split; [done|lia].
  - destruct (executeActionsInHierarchy deref fuel _ sel cur w)
      as [w1| |] eqn:E; try done.
    intros _. apply IH in E as (l & Hl & Hlen).
    exists (x :: l). simpl. split; [done|lia].
  - intros _. exists []. simpl. split; [done|lia].
Qed.

(** ** The scratch arrays *)

Lemma arrayStore_in_bounds (arr : list (option StateRef)) n v :
  n < length arr → arrayStore arr n v = Done (<[n := v]> arr).
Proof. intros H. unfold arrayStore. by rewrite bool_decide_eq_true_2. Qed.

Lemma arrayStore_out_of_bounds (arr : list (option StateRef)) n v :
  length arr ≤ n → arrayStore arr n v = Panicked IndexOutOfRange.
Proof.
  intros H. unfold arrayStore. rewrite bool_decide_eq_false_2; [done|lia].
Qed.

(** Writing [v] at index [n] extends the filled prefix by [v]. *)
Lemma filled_prefix_insert (arr : list (option StateRef)) n k v
    (vs : list (option StateRef)) :
  n + S k ≤ length arr →
  take (n + 1) (<[n := v]> arr) ++ vs ++ drop (n + 1 + k) (<[n := v]> arr) =
  take n arr ++ (v :: vs) ++ drop (n + S k) arr.
Proof.
  intros H.
  replace (n + 1) with (S n) by lia.
  rewrite (take_S_r _ n v) by (apply list_lookup_insert_eq; lia).
  rewrite take_insert_ge by lia.
  rewrite drop_insert_lt by lia.
  rewrite <- app_assoc. simpl.
  by rewrite Nat.add_succ_r.
Qed.

(** ** Searching the common ancestor *)

Lemma findCommonAncestor_collect_chain fuel s l
    (visited : list (option StateRef)) n :
  ancestry deref s l → length l ≤ fuel → n + length l ≤ length visited →
  findCommonAncestor_collect deref fuel s visited n =
  Done (take n visited ++ (Some <$> l) ++ drop (n + length l) visited,
        n + length l).
Proof.
  revert s l visited n.
  induction fuel as [|fuel IH]; intros s [|x l] visited n; simpl.
  - intros -> _ _. by rewrite Nat.add_0_r, take_drop.
  - intros _ ?. lia.
  - intros -> _ _. by rewrite Nat.add_0_r, take_drop.
  - intros [-> H] Hfuel Hlen.
    rewrite arrayStore_in_bounds by lia. simpl.
    rewrite (IH _ l) by (done || rewrite ?length_insert; lia).
    f_equal. f_equal; [|lia].
    apply (filled_prefix_insert visited n (length l) (Some x)). lia.
Qed.

(** A chain longer than the array overruns it. *)
Lemma findCommonAncestor_collect_overrun fuel s l
    (visited : list (option StateRef)) n :
  ancestry deref s l → length l ≤ fuel → n ≤ length visited →
  length visited < n + length l →
  findCommonAncestor_collect deref fuel s visited n =
  Panicked IndexOutOfRange.
Proof.
  revert s l visited n.
  induction fuel as [|fuel IH]; intros s [|x l] visited n; simpl;
    try (intros; lia).
  intros [-> H] Hfuel Hn Hlen.
  destruct (decide (n < length visited)) as [Hlt|Hge].
  - rewrite arrayStore_in_bounds by done. simpl.
    apply (IH _ l); rewrite ?length_insert; (done || lia).
  - by rewrite arrayStore_out_of_bounds by lia.
Qed.

Lemma visitedContains_chain ls (rest : list (option StateRef)) x :
  visitedContains ((Some <$> ls) ++ rest) (length ls) (Some x) =
  bool_decide (x ∈ ls).
Proof.
  unfold visitedContains. apply eq_true_iff_eq.
  rewrite existsb_exists, bool_decide_eq_true. split.
  - intros (i & Hi & Heq). apply in_seq in Hi.
    apply bool_decide_eq_true in Heq.
    rewrite lookup_app_l in Heq by (rewrite length_fmap; lia).
    rewrite list_lookup_fmap in Heq.
    destruct (ls !! i) as [y|] eqn:E; simplify_eq/=.
    by eapply list_elem_of_lookup_2.
  - intros Hin. apply list_elem_of_lookup_1 in Hin as [i Hi].
    exists i. split.
    + apply in_seq. apply lookup_lt_Some in Hi. lia.
    + apply bool_decide_eq_true.
      rewrite lookup_app_l
        by (rewrite length_fmap; by eapply lookup_lt_Some).
      by rewrite list_lookup_fmap, Hi.
Qed.

Lemma findCommonAncestor_search_chain fuel s lt ls
    (rest : list (option StateRef)) :
  ancestry deref s lt → length lt ≤ fuel →
  findCommonAncestor_search deref fuel s ((Some <$> ls) ++ rest)
    (length ls) = Done (firstCommon ls lt).
Proof.
  revert s lt.
  induction fuel as [|fuel IH]; intros s [|x lt]; simpl.
  - intros -> _. done.
  - intros _ ?. lia.
  - intros -> _. done.
  - intros [-> H] Hfuel.
    rewrite visitedContains_chain.
    destruct (bool_decide (x ∈ ls)); [done|].
    apply IH; [done|lia].
Qed.

Lemma findCommonAncestor_chains fuel s1 s2 ls lt :
  ancestry deref s1 ls → ancestry deref s2 lt →
  length ls ≤ MaxStates → length ls ≤ fuel → length lt ≤ fuel →
  findCommonAncestor deref fuel s1 s2 = Done (firstCommon ls lt).
Proof.
  intros H1 H2 Hmax Hf1 Hf2. unfold findCommonAncestor.
  rewrite (findCommonAncestor_collect_chain _ _ ls) by done. simpl.
  by apply findCommonAncestor_search_chain.
Qed.

(** ** The first common state of two chains *)

Lemma firstCommon_Some ls lt r :
  firstCommon ls lt = Some r →
  ∃ l1 l2, lt = l1 ++ r :: l2 ∧ r ∈ ls ∧ ∀ c, c ∈ l1 → c ∉ ls.
Proof.
  induction lt as [|x lt IH]; simpl; [done|].
  case_bool_decide as Hx.
  - intros [= <-]. exists [], lt. split_and!; [done..|].
    intros c Hc. by apply elem_of_nil in Hc.
  - intros (l1 & l2 & -> & Hr & Hpre)%IH.
    exists (x :: l1), l2. split_and!; [done..|].
    intros c [->|Hc]%elem_of_cons; eauto.
Qed.

Lemma firstCommon_None ls lt :
  firstCommon ls lt = None ↔ ∀ c, c ∈ lt → c ∉ ls.
Proof.
  induction lt as [|x lt IH]; simpl.
  - split; [|done]. intros _ c Hc. by apply elem_of_nil in Hc.
  - case_bool_decide as Hx.
    + split; [done|]. intros H. exfalso. apply (H x); [left|done].
    + rewrite IH. split.
      * intros H c [->|Hc]%elem_of_cons; eauto.
      * intros H c Hc. apply H. by right.
Qed.

(** The first common state is the deepest one: every common state lies on
    its chain, as the state itself or as one of its ancestors. *)
Lemma firstCommon_deepest s lt ls r c lr :
  ancestry deref s lt → firstCommon ls lt = Some r →
  ancestry deref (Some r) lr → c ∈ ls → c ∈ lt → c ∈ lr.
Proof.
  intros Hlt (l1 & l2 & -> & Hr & Hpre)%firstCommon_Some Hlr Hcs Hct.
  apply ancestry_suffix in Hlt.
  rewrite (ancestry_functional _ _ _ Hlr Hlt).
  apply elem_of_app in Hct as [Hc|Hc]; [|done].
  by apply Hpre in Hc.
Qed.

Lemma onChain_tail a x l :
  onChain a (x :: l) → Some x ≠ a → onChain a l.
Proof.
  destruct a as [y|]; simpl; [|done].
  intros [->|H]%elem_of_cons Hne; done.
Qed.

Lemma onChain_nil a : onChain a [] → a = None.
Proof. destruct a as [y|]; simpl; [|done]. by intros ?%elem_of_nil. Qed.

Lemma firstCommon_onChain_l ls lt : onChain (firstCommon ls lt) ls.
Proof.
  destruct (firstCommon ls lt) as [r|] eqn:E; simpl; [|done].
  by apply firstCommon_Some in E as (? & ? & _ & ? & _).
Qed.

Lemma firstCommon_onChain_r ls lt : onChain (firstCommon ls lt) lt.
Proof.
  destruct (firstCommon ls lt) as [r|] eqn:E; simpl; [|done].
  apply firstCommon_Some in E as (l1 & l2 & -> & _).
  apply elem_of_app. right. left.
Qed.

Lemma upTo_length a l : length (upTo a l) ≤ length l.
Proof.
  induction l as [|x l IH]; simpl; [done|].
  case_bool_decide; simpl; lia.
Qed.

Lemma upTo_None l : upTo None l = l.
Proof. induction l as [|x l IH]; simpl; [done|]. by rewrite IH. Qed.

Lemma upTo_head x l : upTo (Some x) (x :: l) = [].
Proof. simpl. by rewrite bool_decide_eq_true_2. Qed.

(** ** Exit and entry walks *)

Lemma exitToCommonAncestor_chain fuel s l a cur w :
  ancestry deref s l → onChain a l → length l ≤ fuel →
  exitToCommonAncestor deref fuel s a cur w =
  Done (executeActions (actionsOf deref Exit (upTo a l)) cur w).
Proof.
  revert s l w.
  induction fuel as [|fuel IH]; intros s [|x l] w; simpl.
  - intros -> ->%onChain_nil _. done.
  - intros _ _ ?. lia.
  - intros -> ->%onChain_nil _. done.
  - intros [-> H] Ha Hfuel. case_bool_decide as Hx; [done|].
    rewrite (IH _ l) by (eauto using onChain_tail || lia).
    simpl. by rewrite executeActions_app.
Qed.

Lemma enterFromCommonAncestor_push_chain fuel s l a
    (stack : list (option StateRef)) n :
  ancestry deref s l → onChain a l → length l ≤ fuel →
  n + length (upTo a l) ≤ length stack →
  enterFromCommonAncestor_push deref fuel s a stack n =
  Done (take n stack ++ (Some <$> upTo a l) ++
          drop (n + length (upTo a l)) stack,
        n + length (upTo a l)).
Proof.
  revert s l stack n.
  induction fuel as [|fuel IH]; intros s [|x l] stack n; simpl.
  - intros -> ->%onChain_nil _ _. by rewrite Nat.add_0_r, take_drop.
  - intros _ _ ?. lia.
  - intros -> ->%onChain_nil _ _. by rewrite Nat.add_0_r, take_drop.
  - intros [-> H] Ha Hfuel. case_bool_decide as Hx; simpl.
    + intros _. by rewrite Nat.add_0_r, take_drop.
    + intros Hlen. rewrite arrayStore_in_bounds by lia. simpl.
      rewrite (IH _ l)
        by (eauto using onChain_tail || rewrite ?length_insert; lia).
      f_equal. f_equal; [|lia].
      apply (filled_prefix_insert stack n (length (upTo a l)) (Some x)).
      lia.
Qed.

Lemma enterFromCommonAncestor_pop_chain l
    (rest : list (option StateRef)) cur w :
  enterFromCommonAncestor_pop deref ((Some <$> l) ++ rest) (length l) cur w =
  Done (executeActions (actionsOf deref Entry (rev l)) cur w).
Proof.
  revert rest w. induction l as [|x l IH] using rev_ind; intros rest w.
  - done.
  - rewrite fmap_app, <- app_assoc, length_app, Nat.add_1_r. simpl.
    replace (length l) with (length (Some <$> l)) at 1
      by apply length_fmap.
    rewrite list_lookup_middle by done.
    rewrite IH, rev_unit. simpl. by rewrite executeActions_app.
Qed.

Lemma enterFromCommonAncestor_chain fuel s l a cur w :
  ancestry deref s l → onChain a l → length l ≤ fuel →
  length (upTo a l) ≤ MaxStates →
  enterFromCommonAncestor deref fuel s a cur w =
  Done (executeActions (actionsOf deref Entry (rev (upTo a l))) cur w).
Proof.
  intros H Ha Hfuel Hmax. unfold enterFromCommonAncestor.
  rewrite (enterFromCommonAncestor_push_chain _ _ l) by done. simpl.
  apply enterFromCommonAncestor_pop_chain.
Qed.

Lemma executeTransitionActions_chains fuel (t : Transition) cur w ls lt :
  ancestry deref (tr_CurrentState t) ls →
  ancestry deref (tr_NextState t) lt →
  length ls ≤ MaxStates → length lt ≤ MaxStates →
  length ls ≤ fuel → length lt ≤ fuel →
  executeTransitionActions deref fuel t cur w =
  Done (executeActions (transitionEffects deref t ls lt) cur w).
Proof.
  intros Hs Ht Hms Hmt Hfs Hft. unfold executeTransitionActions.
  rewrite (findCommonAncestor_chains _ _ _ ls lt) by done. simpl.
  rewrite (exitToCommonAncestor_chain _ _ ls)
    by eauto using firstCommon_onChain_l. simpl.
  rewrite (enterFromCommonAncestor_chain _ _ lt)
    by (eauto using firstCommon_onChain_r ||
        pose proof (upTo_length (firstCommon ls lt) lt); lia).
  unfold transitionEffects, transitionEffectsVia.
  by rewrite !executeActions_app.
Qed.

(** ** Guards and the scan of the transition table *)

Lemma evalGuards_all_true (gs : list Predicate) cur w bs w' :
  evalAll gs cur w = (bs, w') → forallb id bs = true →
  evalGuards gs cur w = (true, w').
Proof.
  revert w bs. induction gs as [|g gs IH]; intros w bs; simpl.
  - by intros [= <- <-] _.
  - destruct (g cur w) as [b w1].
    destruct (evalAll gs cur w1) as [bs' w2] eqn:E.
    intros [= <- <-]. simpl. intros [-> Hbs]%andb_true_iff. simpl. eauto.
Qed.

Lemma evalGuards_first_false (pre : list Predicate) g post cur w bs w1 w2 :
  evalAll pre cur w = (bs, w1) → forallb id bs = true →
  g cur w1 = (false, w2) →
  evalGuards (pre ++ g :: post) cur w = (false, w2).
Proof.
  revert w bs. induction pre as [|p pre IH]; intros w bs; simpl.
  - intros [= <- <-] _ ->. done.
  - destruct (p cur w) as [b w0].
    destruct (evalAll pre cur w0) as [bs' w'] eqn:E.
    intros [= <- <-]. simpl. intros [-> Hbs]%andb_true_iff Hg. simpl. eauto.
Qed.

Lemma guardsVerdict_failed (gs : list Predicate) cur w :
  foldl (fun (acc : bool * World) (guard : Predicate) =>
           if acc.1 then guard cur acc.2 else acc)
    (false, w) gs = (false, w).
Proof. induction gs as [|g gs IH]; simpl; [done|]. apply IH. Qed.

(** The guard loop of the code returns the verdict on its guards. *)
Lemma evalGuards_verdict (gs : list Predicate) cur w :
  evalGuards gs cur w = guardsVerdict gs cur w.
Proof.
  unfold guardsVerdict. revert w.
  induction gs as [|g gs IH]; intros w; simpl; [done|].
  destruct (g cur w) as [[] w1]; simpl.
  - apply IH.
  - by rewrite guardsVerdict_failed.
Qed.

Lemma evalGuards_pure (gs : list Predicate) cur w :
  Forall purePredicate gs →
  evalGuards gs cur w = (forallb (fun g => (g cur w).1) gs, w).
Proof.
  induction 1 as [|g gs Hg _ IH]; simpl; [done|].
  specialize (Hg cur w). destruct (g cur w) as [b w1]; simpl in *; subst.
  by destruct b.
Qed.

(** For predicates without side effects, matching is the conjunction of
    the three conditions at the current world. *)
Lemma transitionMatches_pure (t : Transition) cur w :
  purePredicate (tr_Event t) → Forall purePredicate (tr_Guards t) →
  transitionMatches t cur w =
  (bool_decide (cur = tr_CurrentState t) && (tr_Event t cur w).1 &&
     forallb (fun g => (g cur w).1) (tr_Guards t), w).
Proof.
  intros He Hg. unfold transitionMatches.
  case_bool_decide; simpl; [|done].
  specialize (He cur w). destruct (tr_Event t cur w) as [ev w1].
  simpl in *; subst. destruct ev; simpl; [|done].
  rewrite <- evalGuards_verdict. by apply evalGuards_pure.
Qed.

Lemma noneMatches_pure (ts : list Transition) cur w w' :
  (∀ t, t ∈ ts →
     purePredicate (tr_Event t) ∧ Forall purePredicate (tr_Guards t)) →
  noneMatches ts cur w = Some w' → w' = w.
Proof.
  induction ts as [|t ts IH]; simpl; intros Hpure.
  - by intros [= <-].
  - destruct (Hpure t) as [He Hg]; [left|].
    rewrite transitionMatches_pure by done.
    destruct (_ && _); [done|].
    apply IH. intros t' Ht'. apply Hpure. by right.
Qed.

(** A transition that does not match is passed over. *)
Lemma HandleStateMachine_scan_pass fuel sm (t : Transition) rest w w1 :
  transitionMatches t (CurrentState sm) w = (false, w1) →
  HandleStateMachine_scan deref fuel sm (t :: rest) w =
  HandleStateMachine_scan deref fuel sm rest w1.
Proof.
  unfold transitionMatches. simpl.
  case_bool_decide; [|by intros [= <-]].
  destruct (tr_Event t (CurrentState sm) w) as [[] w0]; simpl;
    [|by intros [= <-]].
  rewrite <- evalGuards_verdict. intros ->. done.
Qed.

(** A transition that matches is executed and ends the scan. *)
Lemma HandleStateMachine_scan_fire fuel sm (t : Transition) rest w w1 :
  transitionMatches t (CurrentState sm) w = (true, w1) →
  HandleStateMachine_scan deref fuel sm (t :: rest) w =
  (w2 ← executeTransitionActions deref fuel t (CurrentState sm) w1;
   Done (moveTo sm (tr_NextState t), w2)).
Proof.
  unfold transitionMatches. simpl.
  case_bool_decide; [|done].
  destruct (tr_Event t (CurrentState sm) w) as [[] w0]; simpl; [|done].
  rewrite <- evalGuards_verdict. intros ->. done.
Qed.

Lemma transitionMatches_source (t : Transition) cur w w1 :
  transitionMatches t cur w = (true, w1) → tr_CurrentState t = cur.
Proof. unfold transitionMatches. by case_bool_decide. Qed.

Lemma HandleStateMachine_scan_skip fuel sm (pre rest : list Transition)
    w w1 :
  noneMatches pre (CurrentState sm) w = Some w1 →
  HandleStateMachine_scan deref fuel sm (pre ++ rest) w =
  HandleStateMachine_scan deref fuel sm rest w1.
Proof.
  revert w. induction pre as [|t pre IH]; intros w.
  - by intros [= <-].
  - cbn [noneMatches app].
    destruct (transitionMatches t (CurrentState sm) w) as [[] w0] eqn:E;
      [done|].
    intros H. rewrite (HandleStateMachine_scan_pass _ _ _ _ _ _ E). eauto.
Qed.

(** ** The claims of the specification *)

(** C1.  A transition from S to T whose chains [ls] and [lt] are acyclic
    and hold at most [MaxStates] states applies, each once, in this order
    and each with the engine still showing [cur]: the exit actions of the
    states from S outward to the computed common ancestor [a], exclusive,
    leaf to root; the transition's own actions in declared order; the
    entry actions of the states from [a], exclusive, down to T, root to
    leaf.  When S is the common ancestor no exit action runs, and when T is
    the common ancestor no entry action runs. *)
Theorem transition_effects_order fuel (t : Transition) cur w ls lt :
  ancestry deref (tr_CurrentState t) ls →
  ancestry deref (tr_NextState t) lt →
  length ls ≤ MaxStates → length lt ≤ MaxStates → MaxStates ≤ fuel →
  ∃ a,
    findCommonAncestor deref fuel (tr_CurrentState t) (tr_NextState t)
      = Done a ∧
    executeTransitionActions deref fuel t cur w =
      Done (inOrder
              (actionsOf deref Exit (upTo a ls) ++
               tr_Actions t ++
               actionsOf deref Entry (rev (upTo a lt))) cur w) ∧
    (a = tr_CurrentState t → upTo a ls = []) ∧
    (a = tr_NextState t → upTo a lt = []).
Proof.
  intros Hs Ht Hms Hmt Hfuel. exists (firstCommon ls lt). split_and!.
  - apply findCommonAncestor_chains; (done || lia).
  - rewrite (executeTransitionActions_chains _ _ _ _ ls lt)
      by (done || lia).
    by rewrite executeActions_inOrder.
  - intros Ha. destruct ls as [|x ls]; [done|].
    destruct Hs as [Hs _]. rewrite Ha, Hs. apply upTo_head.
  - intros Ha. destruct lt as [|x lt]; [done|].
    destruct Ht as [Ht _]. rewrite Ha, Ht. apply upTo_head.
Qed.

(** The tick that finds [t] after a prefix without match. *)
Lemma first_match_scan fuel sm w w1 w2 w3
    (pre post : list Transition) (t : Transition) :
  transitions sm = pre ++ t :: post →
  executeActionsInHierarchy deref fuel (CurrentState sm) Handle
    (CurrentState sm) w = Done w1 →
  noneMatches pre (CurrentState sm) w1 = Some w2 →
  transitionMatches t (CurrentState sm) w2 = (true, w3) →
  HandleStateMachine deref fuel sm w =
  (w4 ← executeTransitionActions deref fuel t (CurrentState sm) w3;
   Done (moveTo sm (tr_NextState t), w4)).
Proof.
  intros Hts Hh Hpre Ht. unfold HandleStateMachine.
  rewrite Hh, Hts. simpl.
  rewrite (HandleStateMachine_scan_skip _ _ _ _ _ _ Hpre).
  by apply HandleStateMachine_scan_fire.
Qed.


(** C3.  Construction returns the configuration error, and no engine,
    exactly when more than [MaxStates] = 10 states are declared; the
    message gives the declared count and the bound in decimal, and the
    world is returned as it was: no entry action has run. *)
Theorem construction_rejects_too_many_states fuel
    (initialState : option StateRef) (sts : list State)
    (trs : list Transition) w :
  (MaxStates < length sts →
   NewHierarchicalStateMachine deref fuel initialState sts trs w =
   Done (None,
         Some ("too many states declared: " +:+ pretty (length sts) +:+
               ". max allowed is " +:+ pretty 10)%string,
         w)) ∧
  (∀ r e w',
     NewHierarchicalStateMachine deref fuel initialState sts trs w =
     Done (r, Some e, w') → MaxStates < length sts ∧ r = None) ∧
  (∀ sm e w',
     NewHierarchicalStateMachine deref fuel initialState sts trs w =
     Done (Some sm, e, w') → length sts ≤ MaxStates ∧ e = None).
Proof.
  unfold NewHierarchicalStateMachine. split_and!.
  - intros H. by rewrite bool_decide_eq_true_2.
  - intros r e w'. case_bool_decide as H.
    + by intros [= <- _ _].
    + simpl. by destruct (executeActionsInHierarchy _ _ _ _ _ _).
  - intros sm e w'. case_bool_decide as H; [done|].
    simpl. destruct (executeActionsInHierarchy _ _ _ _ _ _); [|done..].
    intros [= _ <- _]. split; [lia|done].
Qed.

(** C4.  When the initial state has the ancestry chain [l] (of any depth)
    and the declared states are within the bound, construction succeeds,
    applies the entry actions of the states of [l], each action once and
    each state once, from the root ancestor down to the initial state,
    applies no other action, and returns an engine whose current state is
    the initial state. *)
Theorem construction_entry_order fuel (initialState : option StateRef)
    (sts : list State) (trs : list Transition) w l :
  ancestry deref initialState l → length l ≤ fuel →
  length sts ≤ MaxStates →
  NoDup (rev l) ∧
  NewHierarchicalStateMachine deref fuel initialState sts trs w =
  Done (Some {| CurrentState := initialState;
                states := sts;
                transitions := trs |},
        None,
        inOrder (actionsOf deref Entry (rev l)) initialState w).
Proof.
  intros Hl Hfuel Hsts. split.
  - by eapply ancestry_NoDup_rev.
  - unfold NewHierarchicalStateMachine.
    rewrite bool_decide_eq_false_2 by lia. simpl.
    by rewrite (executeActionsInHierarchy_chain _ _ l),
               executeActions_inOrder.
Qed.

(** C5.  A tick first applies the handle actions of the states of the
    current state's ancestry chain [l], each action once and each state
    once, root to leaf; the scan of the transitions starts from the world
    so reached, whatever the scan then finds. *)
Theorem handle_dispatch_every_tick fuel sm w l :
  ancestry deref (CurrentState sm) l → length l ≤ fuel →
  NoDup (rev l) ∧
  HandleStateMachine deref fuel sm w =
  HandleStateMachine_scan deref fuel sm (transitions sm)
    (inOrder (actionsOf deref Handle (rev l)) (CurrentState sm) w).
Proof.
  intros Hl Hfuel. split.
  - by eapply ancestry_NoDup_rev.
  - unfold HandleStateMachine.
    by rewrite (executeActionsInHierarchy_chain _ _ l),
               executeActions_inOrder.
Qed.

(** C6.  A tick in which no transition matches returns the engine as it
    was: the current state is unchanged and no exit, entry or transition
    action has run.  The world is the one left by the handle dispatch and
    by the evaluation of the predicates of the scan; when these predicates
    have no side effects it is the world left by the handle dispatch. *)
Theorem no_match_tick fuel sm w w1 l :
  ancestry deref (CurrentState sm) l → length l ≤ fuel →
  noneMatches (transitions sm) (CurrentState sm)
    (executeActions (actionsOf deref Handle (rev l)) (CurrentState sm) w)
    = Some w1 →
  HandleStateMachine deref fuel sm w = Done (sm, w1) ∧
  ((∀ t, t ∈ transitions sm →
      purePredicate (tr_Event t) ∧ Forall purePredicate (tr_Guards t)) →
   w1 = executeActions (actionsOf deref Handle (rev l)) (CurrentState sm) w).
Proof.
  intros Hl Hfuel Hnone. split.
  - unfold HandleStateMachine.
    rewrite (executeActionsInHierarchy_chain _ _ l) by done. simpl.
    rewrite <- (app_nil_r (transitions sm)).
    by rewrite (HandleStateMachine_scan_skip _ _ _ _ _ _ Hnone).
  - intros Hpure. by eapply noneMatches_pure.
Qed.

(** C7.  Guards are evaluated in declared order and the evaluation stops
    at the first false one: when the guards before [g] hold and [g] is
    false, the guards after [g] are not invoked, and the tick goes on to
    the next transition from the world that [g] left.  When all guards
    hold, each has been evaluated once, in order. *)
Theorem guards_short_circuit (pre post : list Predicate) (g : Predicate)
    cur w bs w1 w2 :
  evalAll pre cur w = (bs, w1) → forallb id bs = true →
  g cur w1 = (false, w2) →
  evalGuards (pre ++ g :: post) cur w = (false, w2) ∧
  (∀ fuel sm (t : Transition) rest w0,
     CurrentState sm = cur → tr_CurrentState t = cur →
     tr_Event t cur w0 = (true, w) → tr_Guards t = pre ++ g :: post →
     HandleStateMachine_scan deref fuel sm (t :: rest) w0 =
     HandleStateMachine_scan deref fuel sm rest w2) ∧
  evalGuards pre cur w = (true, w1).
Proof.
  intros Hpre Hbs Hg.
  pose proof (evalGuards_first_false _ _ post _ _ _ _ _ Hpre Hbs Hg) as Hf.
  split_and!; [done| |by eapply evalGuards_all_true].
  intros fuel sm t rest w0 Hcur Hsrc Hev Hgs.
  apply HandleStateMachine_scan_pass. unfold transitionMatches.
  rewrite Hcur, Hsrc, bool_decide_eq_true_2 by done.
  by rewrite Hev, Hgs, <- evalGuards_verdict.
Qed.

(** C8.  For states S and T with acyclic chains [ls] and [lt], [ls]
    of at most [MaxStates] states, the search returns the first
    state of T's chain, walking outward, that is on S's chain.  This state
    lies on both chains and is the deepest such state: every common state
    is on its own chain.  The search returns [nil] exactly when the chains
    are disjoint, and then a transition from S to T, with [lt] of at most
    [MaxStates] states too, applies the exit actions of all of S's chain,
    leaf to root, its own actions, and the entry actions of all of T's
    chain, root to leaf. *)
Theorem common_ancestor_deepest fuel s1 s2 ls lt :
  ancestry deref s1 ls → ancestry deref s2 lt →
  length ls ≤ MaxStates → length ls ≤ fuel → length lt ≤ fuel →
  ∃ a,
    findCommonAncestor deref fuel s1 s2 = Done a ∧
    a = firstCommon ls lt ∧
    (∀ r, a = Some r →
       r ∈ ls ∧ r ∈ lt ∧
       ∀ c lr, c ∈ ls → c ∈ lt → ancestry deref (Some r) lr → c ∈ lr) ∧
    (a = None ↔ ∀ c, c ∈ lt → c ∉ ls) ∧
    (a = None → length lt ≤ MaxStates →
     ∀ (t : Transition) cur w,
       tr_CurrentState t = s1 → tr_NextState t = s2 →
       executeTransitionActions deref fuel t cur w =
       Done (inOrder
               (actionsOf deref Exit ls ++ tr_Actions t ++
                actionsOf deref Entry (rev lt)) cur w)).
Proof.
  intros Hs Ht Hmax Hfs Hft. exists (firstCommon ls lt). split_and!.
  - by apply findCommonAncestor_chains.
  - done.
  - intros r Hr.
    pose proof (firstCommon_onChain_l ls lt) as Hl.
    pose proof (firstCommon_onChain_r ls lt) as Hr'.
    rewrite Hr in Hl, Hr'. split_and!; [exact Hl|exact Hr'|].
    intros c lr Hcs Hct Hlr.
    exact (firstCommon_deepest _ _ _ _ _ _ Ht Hr Hlr Hcs Hct).
  - apply firstCommon_None.
  - intros Hnone Hmt t cur w <- <-.
    rewrite (executeTransitionActions_chains _ _ _ _ ls lt) by done.
    unfold transitionEffects, transitionEffectsVia.
    by rewrite Hnone, !upTo_None, executeActions_inOrder.
Qed.

(** C9.  In a tick that selects the transition [t], the chains of source
    and target being acyclic with at most [MaxStates] states, every exit
    action, transition action and entry action of [t] runs while the
    engine still shows the source state as its current state; the tick
    returns only after all of them, and the engine it returns has the
    target of [t] as its current state. *)
Theorem current_state_updated_last fuel sm w w1 w2
    (pre post : list Transition) (t : Transition) ls lt :
  transitions sm = pre ++ t :: post →
  ancestry deref (CurrentState sm) ls →
  ancestry deref (tr_NextState t) lt →
  length ls ≤ MaxStates → length lt ≤ MaxStates → MaxStates ≤ fuel →
  noneMatches pre (CurrentState sm)
    (executeActions (actionsOf deref Handle (rev ls)) (CurrentState sm) w)
    = Some w1 →
  transitionMatches t (CurrentState sm) w1 = (true, w2) →
  ∃ sm',
    HandleStateMachine deref fuel sm w =
    Done (sm',
          executeActions (transitionEffects deref t ls lt)
            (CurrentState sm) w2) ∧
    CurrentState sm' = tr_NextState t ∧
    states sm' = states sm ∧ transitions sm' = transitions sm.
Proof.
  intros Hts Hs Ht Hms Hmt Hfuel Hpre Hmatch.
  exists (moveTo sm (tr_NextState t)). split; [|done].
  pose proof (transitionMatches_source _ _ _ _ Hmatch) as Hsrc.
  assert (length ls ≤ fuel) as Hfs by lia.
  rewrite (first_match_scan fuel sm w _ w1 w2 pre post t Hts
             (executeActionsInHierarchy_chain _ _ ls _ _ _ Hs Hfs)
             Hpre Hmatch).
  rewrite (executeTransitionActions_chains _ _ _ _ ls lt);
    (done || lia || by rewrite Hsrc).
Qed.

(** C10.  When the chains of S and T are acyclic and have at most
    [MaxStates] = 10 states, the common-ancestor search and the entry walk
    towards the ancestor it found both return: no array index is out of
    range and no loop runs forever.  The search fills [length ls] slots of
    its array and the entry walk at most [length lt], both within the
    [MaxStates] slots. *)
Theorem scratch_arrays_in_bounds fuel s1 s2 ls lt cur w :
  ancestry deref s1 ls → ancestry deref s2 lt →
  length ls ≤ MaxStates → length lt ≤ MaxStates → MaxStates ≤ fuel →
  ∃ a visited stack w',
    findCommonAncestor_collect deref fuel s1 newArray 0 =
      Done (visited, length ls) ∧
    findCommonAncestor deref fuel s1 s2 = Done a ∧
    enterFromCommonAncestor_push deref fuel s2 a newArray 0 =
      Done (stack, length (upTo a lt)) ∧
    enterFromCommonAncestor deref fuel s2 a cur w = Done w' ∧
    length visited = MaxStates ∧ length stack = MaxStates ∧
    length (upTo a lt) ≤ MaxStates.
Proof.
  intros Hs Ht Hms Hmt Hfuel.
  pose proof (upTo_length (firstCommon ls lt) lt) as Hup.
  pose proof (firstCommon_onChain_r ls lt) as Hon.
  assert (length newArray = MaxStates) as Hnew by apply length_replicate.
  exists (firstCommon ls lt). do 3 eexists. split_and!.
  - rewrite (findCommonAncestor_collect_chain _ _ ls) by (done || lia).
    reflexivity.
  - apply findCommonAncestor_chains; (done || lia).
  - rewrite (enterFromCommonAncestor_push_chain _ _ lt) by (done || lia).
    reflexivity.
  - apply (enterFromCommonAncestor_chain _ _ lt); (done || lia).
  - rewrite !length_app, length_take, length_fmap, length_drop. lia.
  - rewrite !length_app, length_take, length_fmap, length_drop. lia.
  - lia.
Qed.

End Properties.

(** * Further properties of the engine *)

Section Further.

Context {World : Type}.
Variable deref : StateRef -> @State World.

Implicit Types (s a cur : option StateRef) (l ls lt : list StateRef).
Implicit Types (w : World) (fuel : nat).

(** ** Chains in a forest *)

Lemma ancestry_split s l c :
  ancestry deref s l → c ∈ l →
  ∃ l1 l2, l = l1 ++ c :: l2 ∧ (c ∉ l1) ∧ (c ∉ l2) ∧
           ancestry deref (Some c) (c :: l2).
Proof.
  intros Hl Hc. pose proof (ancestry_NoDup _ _ _ Hl) as Hnd.
  apply list_elem_of_split in Hc as (l1 & l2 & ->).
  exists l1, l2. apply NoDup_app in Hnd as (_ & Hd & Hnd2).
  apply NoDup_cons in Hnd2 as [Hc2 _].
  split_and!; [done| |done|by eapply ancestry_suffix].
  intros Hc1. apply (Hd _ Hc1). left.
Qed.

Lemma upTo_split x l1 l2 :
  x ∉ l1 → upTo (Some x) (l1 ++ x :: l2) = l1.
Proof.
  induction l1 as [|y l1 IH]; simpl; intros Hx.
  - by rewrite bool_decide_eq_true_2.
  - apply not_elem_of_cons in Hx as [Hne Hx].
    rewrite bool_decide_eq_false_2 by congruence. by rewrite IH.
Qed.

Lemma filter_keep_all (P : StateRef → Prop) `{!∀ x, Decision (P x)} l :
  (∀ x, x ∈ l → P x) → filter P l = l.
Proof.
  induction l as [|x l IH]; intros Hall; [done|].
  rewrite filter_cons_True by (apply Hall; left).
  rewrite IH; [done|]. intros y Hy. apply Hall. by right.
Qed.

Lemma filter_drop_all (P : StateRef → Prop) `{!∀ x, Decision (P x)} l :
  (∀ x, x ∈ l → ¬ P x) → filter P l = [].
Proof.
  induction l as [|x l IH]; intros Hall; [done|].
  rewrite filter_cons_False by (apply Hall; left).
  apply IH. intros y Hy. apply Hall. by right.
Qed.

(** When [r] is the first common state, both chains end in the chain of
    [r]. *)
Lemma firstCommon_shape s1 s2 ls lt r :
  ancestry deref s1 ls → ancestry deref s2 lt →
  firstCommon ls lt = Some r →
  ∃ k1 l1 l2,
    ls = k1 ++ r :: l2 ∧ lt = l1 ++ r :: l2 ∧
    (r ∉ k1) ∧ (r ∉ l1) ∧
    (∀ c, c ∈ k1 → c ∉ lt) ∧ (∀ c, c ∈ l1 → c ∉ ls).
Proof.
  intros Hs Ht (l1 & l2 & -> & Hr & Hpre)%firstCommon_Some.
  destruct (ancestry_split _ _ _ Hs Hr) as (k1 & k2 & -> & Hk1 & Hk2 & Hc).
  pose proof (ancestry_suffix _ _ _ _ _ Ht) as Hc'.
  pose proof (ancestry_functional _ _ _ _ Hc Hc') as [= ->].
  exists k1, l1, l2. split_and!; [done..| | |done].
  - intros Hin. by apply (Hpre _ Hin).
  - intros c Hc1 [Hc2|Hc2]%elem_of_app.
    + apply (Hpre _ Hc2). apply elem_of_app. by left.
    + pose proof (ancestry_NoDup _ _ _ Hs) as Hnd.
      apply NoDup_app in Hnd as (_ & Hd & _). by apply (Hd _ Hc1).
Qed.

(** The states that a transition leaves are the states of the source
    chain that are not on the target chain. *)
Lemma upTo_firstCommon_source s1 s2 ls lt :
  ancestry deref s1 ls → ancestry deref s2 lt →
  upTo (firstCommon ls lt) ls = filter (λ x, x ∉ lt) ls.
Proof.
  intros Hs Ht. destruct (firstCommon ls lt) as [r|] eqn:E.
  - destruct (firstCommon_shape _ _ _ _ _ Hs Ht E)
      as (k1 & l1 & l2 & -> & -> & Hk1 & Hl1 & Hk & Hl).
    rewrite upTo_split by done. rewrite filter_app.
    rewrite (filter_keep_all _ k1) by done.
    rewrite filter_drop_all; [by rewrite app_nil_r|].
    intros x Hx Hn. apply Hn. apply elem_of_app. by right.
  - rewrite upTo_None. symmetry. apply filter_keep_all.
    intros x Hx Hxt. by apply (proj1 (firstCommon_None ls lt) E x).
Qed.

(** The states that a transition enters are the states of the target
    chain that are not on the source chain. *)
Lemma upTo_firstCommon_target s1 s2 ls lt :
  ancestry deref s1 ls → ancestry deref s2 lt →
  upTo (firstCommon ls lt) lt = filter (λ x, x ∉ ls) lt.
Proof.
  intros Hs Ht. destruct (firstCommon ls lt) as [r|] eqn:E.
  - destruct (firstCommon_shape _ _ _ _ _ Hs Ht E)
      as (k1 & l1 & l2 & -> & -> & Hk1 & Hl1 & Hk & Hl).
    rewrite upTo_split by done. rewrite filter_app.
    rewrite (filter_keep_all _ l1) by done.
    rewrite filter_drop_all; [by rewrite app_nil_r|].
    intros x Hx Hn. apply Hn. apply elem_of_app. by right.
  - rewrite upTo_None. symmetry. apply filter_keep_all.
    intros x Hx. by apply (proj1 (firstCommon_None ls lt) E x).
Qed.

Lemma firstCommon_skip ls l1 l2 :
  (∀ c, c ∈ l1 → c ∉ ls) → firstCommon ls (l1 ++ l2) = firstCommon ls l2.
Proof.
  induction l1 as [|x l1 IH]; intros H; simpl; [done|].
  rewrite bool_decide_eq_false_2 by (apply H; left).
  apply IH. intros c Hc. apply H. by right.
Qed.

Lemma firstCommon_head ls x l : x ∈ ls → firstCommon ls (x :: l) = Some x.
Proof. intros H. simpl. by rewrite bool_decide_eq_true_2. Qed.

(** Walking either chain finds the same state. *)
Lemma firstCommon_sym s1 s2 ls lt :
  ancestry deref s1 ls → ancestry deref s2 lt →
  firstCommon ls lt = firstCommon lt ls.
Proof.
  intros Hs Ht. destruct (firstCommon ls lt) as [r|] eqn:E.
  - destruct (firstCommon_shape _ _ _ _ _ Hs Ht E)
      as (k1 & l1 & l2 & -> & -> & Hk1 & Hl1 & Hk & Hl).
    rewrite firstCommon_skip by done.
    rewrite firstCommon_head; [done|]. apply elem_of_app. right. left.
  - symmetry. apply firstCommon_None. intros c Hc Hct.
    by apply (proj1 (firstCommon_None ls lt) E c).
Qed.

(** ** Chains that end, chains that do not *)

Lemma rootWithin_ancestry n s :
  rootWithin deref n s = true ↔ ∃ l, ancestry deref s l ∧ length l ≤ n.
Proof.
  revert s. induction n as [|n IH]; intros [x|]; simpl.
  - split; [done|]. intros ([|y l] & Hl & Hlen); simpl in *; [done|lia].
  - split; [|done]. intros _. exists []. simpl. split; [done|lia].
  - rewrite IH. split.
    + intros (l & Hl & Hlen). exists (x :: l). simpl. split; [done|lia].
    + intros ([|y l] & Hl & Hlen); simpl in *; [done|].
      destruct Hl as [[= <-] Hl]. exists l. split; [done|lia].
  - split; [|done]. intros _. exists []. simpl. split; [done|lia].
Qed.

Lemma ancestorAt_chain n s l y :
  ancestry deref s l → ancestorAt deref n s = Some y →
  ∃ l', ancestry deref (Some y) l' ∧ length l = n + length l'.
Proof.
  revert s l. induction n as [|n IH]; intros s l Hl; simpl.
  - intros ->. by exists l.
  - destruct s as [x|]; [|done]. destruct l as [|x' l]; [done|].
    destruct Hl as [[= <-] Hl]. intros Hy.
    destruct (IH _ _ Hl Hy) as (l' & Hl' & Hlen).
    exists l'. split; [done|]. simpl. lia.
Qed.

(** A state from which a cycle is reached has no chain. *)
Lemma cycle_no_chain m k s x l :
  ancestorAt deref m s = Some x →
  ancestorAt deref (S k) (Some x) = Some x →
  ¬ ancestry deref s l.
Proof.
  intros Hreach Hcycle Hl.
  destruct (ancestorAt_chain _ _ _ _ Hl Hreach) as (lx & Hlx & _).
  destruct (ancestorAt_chain _ _ _ _ Hlx Hcycle) as (lx' & Hlx' & Hlen).
  rewrite (ancestry_functional _ _ _ _ Hlx Hlx') in Hlen. lia.
Qed.

Lemma executeActionsInHierarchy_never_panics fuel s
    (sel : State -> list Action) cur w p :
  executeActionsInHierarchy deref fuel s sel cur w ≠ Panicked p.
Proof.
  revert s w p.
  induction fuel as [|fuel IH]; intros [x|] w p; simpl; try done.
  destruct (executeActionsInHierarchy deref fuel _ sel cur w) eqn:E;
    simpl; try done.
  by apply IH in E.
Qed.

Lemma executeActionsInHierarchy_no_chain_diverges fuel s
    (sel : State -> list Action) cur w :
  (∀ l, ¬ ancestry deref s l) →
  executeActionsInHierarchy deref fuel s sel cur w = Diverged.
Proof.
  intros Hno.
  destruct (executeActionsInHierarchy deref fuel s sel cur w) as [w'|p|]
    eqn:E; [| |done].
  - apply executeActionsInHierarchy_no_chain in E as (l & Hl & _).
    by apply Hno in Hl.
  - by apply executeActionsInHierarchy_never_panics in E.
Qed.

(** ** The search beyond its array *)

Lemma findCommonAncestor_collect_no_room k fuel s
    (visited : list (option StateRef)) n :
  rootWithin deref k s = false → n + k = length visited → k < fuel →
  findCommonAncestor_collect deref fuel s visited n =
  Panicked IndexOutOfRange.
Proof.
  revert fuel s visited n.
  induction k as [|k IH]; intros [|fuel] [x|] visited n; simpl;
    try done; try lia.
  - intros _ Hn _. by rewrite arrayStore_out_of_bounds by lia.
  - intros Hroot Hn Hfuel. rewrite arrayStore_in_bounds by lia. simpl.
    apply IH; [done|rewrite length_insert; lia|lia].
Qed.

Lemma findCommonAncestor_search_never_panics fuel s
    (visited : list (option StateRef)) n p :
  findCommonAncestor_search deref fuel s visited n ≠ Panicked p.
Proof.
  revert s. induction fuel as [|fuel IH]; intros [x|]; simpl; try done.
  - by destruct (visitedContains _ _ _).
  - destruct (visitedContains _ _ _); [done|]. apply IH.
Qed.

Lemma executeTransitionActions_overrun fuel (t : Transition) cur w ls :
  ancestry deref (tr_CurrentState t) ls →
  MaxStates < length ls → length ls ≤ fuel →
  executeTransitionActions deref fuel t cur w = Panicked IndexOutOfRange.
Proof.
  intros Hs Hlong Hfuel.
  unfold executeTransitionActions, findCommonAncestor.
  rewrite (findCommonAncestor_collect_overrun _ _ _ ls); [done..| |].
  - unfold newArray. rewrite length_replicate. lia.
  - unfold newArray. rewrite length_replicate. lia.
Qed.

(** ** Walks towards a state that is not on the chain *)

Lemma exitToCommonAncestor_off_chain fuel s l x cur w :
  ancestry deref s l → x ∉ l → length l < fuel →
  exitToCommonAncestor deref fuel s (Some x) cur w =
  Panicked NilDereference.
Proof.
  revert s l w.
  induction fuel as [|fuel IH]; intros s [|y l] w; simpl; try lia.
  - intros -> _ _. done.
  - intros [-> Hl] [Hne Hx]%not_elem_of_cons Hfuel.
    rewrite bool_decide_eq_false_2 by congruence.
    apply (IH _ l); [done..|lia].
Qed.

Lemma enterFromCommonAncestor_push_off_chain fuel s l x
    (stack : list (option StateRef)) n :
  ancestry deref s l → x ∉ l → length l < fuel → n ≤ length stack →
  enterFromCommonAncestor_push deref fuel s (Some x) stack n =
  Panicked (if bool_decide (n + length l < length stack)
            then NilDereference else IndexOutOfRange).
Proof.
  revert s l stack n.
  induction fuel as [|fuel IH]; intros s [|y l] stack n; simpl; try lia.
  - intros -> _ _ Hn. rewrite Nat.add_0_r.
    rewrite (bool_decide_eq_false_2 (None = Some x)) by done.
    case_bool_decide.
    + by rewrite arrayStore_in_bounds.
    + by rewrite arrayStore_out_of_bounds by lia.
  - intros [-> Hl] [Hne Hx]%not_elem_of_cons Hfuel Hn.
    rewrite bool_decide_eq_false_2 by congruence.
    destruct (decide (n < length stack)) as [Hlt|Hge].
    + rewrite arrayStore_in_bounds by done. simpl.
      rewrite (IH _ l) by (done || rewrite ?length_insert; lia).
      rewrite length_insert.
      by replace (n + 1 + length l) with (n + S (length l)) by lia.
    + rewrite arrayStore_out_of_bounds by lia. simpl.
      by rewrite bool_decide_eq_false_2 by lia.
Qed.

(** ** What a scan can return *)

Lemma HandleStateMachine_scan_result fuel sm (ts : list Transition)
    w sm' w' :
  HandleStateMachine_scan deref fuel sm ts w = Done (sm', w') →
  sm' = sm ∨
  ∃ t, t ∈ ts ∧ tr_CurrentState t = CurrentState sm ∧
       sm' = moveTo sm (tr_NextState t).
Proof.
  revert w. induction ts as [|t ts IH]; intros w.
  - intros [= <- _]. by left.
  - destruct (transitionMatches t (CurrentState sm) w) as [[] w1] eqn:E.
    + rewrite (HandleStateMachine_scan_fire _ _ _ _ _ _ _ E).
      destruct (executeTransitionActions _ _ _ _ _); simpl; try done.
      intros [= <- _]. right. exists t. split_and!; [left| |done].
      by eapply transitionMatches_source.
    + rewrite (HandleStateMachine_scan_pass _ _ _ _ _ _ _ E).
      intros [?|(t' & Ht' & ?)]%IH; [by left|].
      right. exists t'. split; [by right|done].
Qed.

Lemma HandleStateMachine_scan_returns fuel sm (ts : list Transition)
    w ls :
  ancestry deref (CurrentState sm) ls →
  length ls ≤ MaxStates → MaxStates ≤ fuel →
  forallb (fun t => rootWithin deref MaxStates (tr_NextState t)) ts = true →
  ∃ sm' w', HandleStateMachine_scan deref fuel sm ts w = Done (sm', w').
Proof.
  intros Hs Hms Hfuel. revert w.
  induction ts as [|t ts IH]; intros w; cbn [forallb].
  - intros _. by eexists _, _.
  - intros [Ht Hts]%andb_true_iff.
    destruct (transitionMatches t (CurrentState sm) w) as [[] w1] eqn:E.
    + rewrite (HandleStateMachine_scan_fire _ _ _ _ _ _ _ E).
      apply rootWithin_ancestry in Ht as (lt & Hlt & Hmt).
      pose proof (transitionMatches_source _ _ _ _ E) as Hsrc.
      rewrite (executeTransitionActions_chains _ _ _ _ _ ls lt);
        [|by rewrite Hsrc|done|done|done|lia|lia].
      simpl. by eexists _, _.
    + rewrite (HandleStateMachine_scan_pass _ _ _ _ _ _ _ E). by apply IH.
Qed.

Lemma HandleStateMachine_scan_own_source fuel sm (ts : list Transition) w :
  HandleStateMachine_scan deref fuel sm ts w =
  HandleStateMachine_scan deref fuel sm
    (filter (λ t, CurrentState sm = tr_CurrentState t) ts) w.
Proof.
  revert w. induction ts as [|t ts IH]; intros w; [done|].
  destruct (decide (CurrentState sm = tr_CurrentState t)) as [Heq|Hne].
  - rewrite filter_cons_True by done. simpl.
    rewrite bool_decide_eq_true_2 by done.
    destruct (tr_Event t (CurrentState sm) w) as [[] w1]; simpl; [|done].
    destruct (evalGuards _ _ w1) as [[] w2]; simpl; done.
  - rewrite filter_cons_False by done. simpl.
    by rewrite bool_decide_eq_false_2.
Qed.

(** ** Properties *)

(** X1.  A transition leaves exactly the states of the source chain that
    are not on the target chain, innermost first, and enters exactly the
    states of the target chain that are not on the source chain, outermost
    first; the states on both chains are neither left nor entered. *)
Theorem transition_leaves_and_enters_differences fuel (t : Transition)
    cur w ls lt :
  ancestry deref (tr_CurrentState t) ls →
  ancestry deref (tr_NextState t) lt →
  length ls ≤ MaxStates → length lt ≤ MaxStates → MaxStates ≤ fuel →
  executeTransitionActions deref fuel t cur w =
  Done (executeActions
          (actionsOf deref Exit (filter (λ x, x ∉ lt) ls) ++
           tr_Actions t ++
           actionsOf deref Entry (rev (filter (λ x, x ∉ ls) lt))) cur w).
Proof.
  intros Hs Ht Hms Hmt Hfuel.
  rewrite (executeTransitionActions_chains _ _ _ _ _ ls lt)
    by (done || lia).
  unfold transitionEffects, transitionEffectsVia.
  by rewrite (upTo_firstCommon_source _ _ _ _ Hs Ht),
             (upTo_firstCommon_target _ _ _ _ Hs Ht).
Qed.

(** X2.  The common ancestor of two states does not depend on which of
    them is given first. *)
Theorem findCommonAncestor_symmetric fuel s1 s2 ls lt :
  ancestry deref s1 ls → ancestry deref s2 lt →
  length ls ≤ MaxStates → length lt ≤ MaxStates → MaxStates ≤ fuel →
  findCommonAncestor deref fuel s1 s2 = findCommonAncestor deref fuel s2 s1.
Proof.
  intros Hs Ht Hms Hmt Hfuel.
  rewrite (findCommonAncestor_chains _ _ _ _ ls lt) by (done || lia).
  rewrite (findCommonAncestor_chains _ _ _ _ lt ls) by (done || lia).
  f_equal. by eapply firstCommon_sym.
Qed.

(** X3.  A transition from a state to itself runs the actions of the
    transition and nothing else: the state is neither left nor entered. *)
Theorem self_transition_runs_only_its_actions fuel (t : Transition)
    cur w ls :
  tr_NextState t = tr_CurrentState t →
  ancestry deref (tr_CurrentState t) ls →
  length ls ≤ MaxStates → MaxStates ≤ fuel →
  executeTransitionActions deref fuel t cur w =
  Done (executeActions (tr_Actions t) cur w).
Proof.
  intros Heq Hs Hms Hfuel.
  rewrite (executeTransitionActions_chains _ _ _ _ _ ls ls)
    by (done || lia || by rewrite Heq).
  unfold transitionEffects, transitionEffectsVia.
  rewrite (upTo_firstCommon_source _ _ _ _ Hs Hs).
  rewrite filter_drop_all by (intros x Hx Hn; by apply Hn).
  simpl. by rewrite app_nil_r.
Qed.

(** X4.  A transition between two different states with the same parent
    runs the exit actions of the source, the actions of the transition and
    the entry actions of the target; no action of the parent or of an
    ancestor runs. *)
Theorem sibling_transition_spares_the_parent fuel (t : Transition)
    cur w x y lp :
  tr_CurrentState t = Some x → tr_NextState t = Some y → x ≠ y →
  ParentState (deref y) = ParentState (deref x) →
  ancestry deref (ParentState (deref x)) lp →
  length lp < MaxStates → MaxStates ≤ fuel →
  executeTransitionActions deref fuel t cur w =
  Done (executeActions
          (Exit (deref x) ++ tr_Actions t ++ Entry (deref y)) cur w).
Proof.
  intros Hx Hy Hne Hpar Hp Hmp Hfuel.
  assert (ancestry deref (tr_CurrentState t) (x :: lp)) as Hs
    by (rewrite Hx; by split).
  assert (ancestry deref (tr_NextState t) (y :: lp)) as Ht
    by (rewrite Hy; split; [done|by rewrite Hpar]).
  pose proof (ancestry_NoDup _ _ _ Hs) as [Hxp _]%NoDup_cons.
  pose proof (ancestry_NoDup _ _ _ Ht) as [Hyp _]%NoDup_cons.
  rewrite (executeTransitionActions_chains _ _ _ _ _ _ _ Hs Ht)
    by (simpl; lia).
  unfold transitionEffects, transitionEffectsVia.
  rewrite (upTo_firstCommon_source _ _ _ _ Hs Ht),
          (upTo_firstCommon_target _ _ _ _ Hs Ht).
  rewrite !filter_cons_True by (by apply not_elem_of_cons).
  rewrite !filter_drop_all
    by (intros c Hc Hn; apply Hn; by right).
  simpl. by rewrite !app_nil_r.
Qed.

(** X5.  A transition to an ancestor of its source (or to the source
    itself) leaves the states from the source outward up to the target,
    exclusive, and enters nothing: the entry actions of the target do not
    run. *)
Theorem transition_to_ancestor_enters_nothing fuel (t : Transition)
    cur w ls y :
  ancestry deref (tr_CurrentState t) ls → tr_NextState t = Some y →
  y ∈ ls → length ls ≤ MaxStates → MaxStates ≤ fuel →
  executeTransitionActions deref fuel t cur w =
  Done (executeActions
          (actionsOf deref Exit (upTo (Some y) ls) ++ tr_Actions t) cur w).
Proof.
  intros Hs Hy Hin Hms Hfuel.
  destruct (ancestry_split _ _ _ Hs Hin) as (l1 & l2 & Hls & _ & _ & Hc).
  assert (length (y :: l2) ≤ length ls) as Hlen
    by (rewrite Hls, length_app; simpl; lia).
  rewrite <- Hy in Hc.
  rewrite (executeTransitionActions_chains _ _ _ _ _ _ _ Hs Hc)
    by (done || lia).
  unfold transitionEffects, transitionEffectsVia.
  rewrite firstCommon_head, upTo_head by done.
  simpl. by rewrite app_nil_r.
Qed.

(** X6.  A transition from an ancestor of its target leaves nothing, not
    even its source, and enters the states below the source down to the
    target, outermost first. *)
Theorem transition_from_ancestor_leaves_nothing fuel (t : Transition)
    cur w lt x :
  ancestry deref (tr_NextState t) lt → tr_CurrentState t = Some x →
  x ∈ lt → length lt ≤ MaxStates → MaxStates ≤ fuel →
  executeTransitionActions deref fuel t cur w =
  Done (executeActions
          (tr_Actions t ++ actionsOf deref Entry (rev (upTo (Some x) lt)))
          cur w).
Proof.
  intros Ht Hx Hin Hmt Hfuel.
  destruct (ancestry_split _ _ _ Ht Hin)
    as (l1 & l2 & Hlt & Hx1 & Hx2 & Hc).
  assert (length (x :: l2) ≤ length lt) as Hlen
    by (rewrite Hlt, length_app; simpl; lia).
  rewrite <- Hx in Hc.
  rewrite (executeTransitionActions_chains _ _ _ _ _ _ _ Hc Ht)
    by (done || lia).
  unfold transitionEffects, transitionEffectsVia.
  assert (firstCommon (x :: l2) lt = Some x) as ->.
  { rewrite Hlt, firstCommon_skip; [apply firstCommon_head; left|].
    intros c Hc1 Hc2. pose proof (ancestry_NoDup _ _ _ Ht) as Hnd.
    rewrite Hlt in Hnd. apply NoDup_app in Hnd as (_ & Hd & _).
    by apply (Hd _ Hc1). }
  by rewrite upTo_head.
Qed.

(** X7.  The search of the common ancestor panics exactly when the chain
    of its first argument does not end within [MaxStates] states, be it
    too long or cyclic, and then with an index out of range; it never
    dereferences [nil]. *)
Theorem findCommonAncestor_panics_iff_chain_too_long fuel s1 s2 :
  MaxStates < fuel →
  (findCommonAncestor deref fuel s1 s2 = Panicked IndexOutOfRange ↔
   rootWithin deref MaxStates s1 = false) ∧
  findCommonAncestor deref fuel s1 s2 ≠ Panicked NilDereference.
Proof.
  intros Hfuel. unfold findCommonAncestor.
  destruct (rootWithin deref MaxStates s1) eqn:E.
  - apply rootWithin_ancestry in E as (ls & Hs & Hms).
    rewrite (findCommonAncestor_collect_chain _ _ _ ls)
      by (done || unfold newArray; rewrite ?length_replicate; simpl; lia).
    simpl. split; [|apply findCommonAncestor_search_never_panics].
    split; [|done]. intros H.
    by apply findCommonAncestor_search_never_panics in H.
  - rewrite (findCommonAncestor_collect_no_room MaxStates)
      by (done || by unfold newArray; rewrite length_replicate).
    done.
Qed.

(** X8.  A tick that returns leaves the declared states and the
    transition table as they were, and the current state either stays or
    becomes the target of a declared transition whose source was the
    current state. *)
Theorem tick_moves_along_a_declared_transition fuel sm w sm' w' :
  HandleStateMachine deref fuel sm w = Done (sm', w') →
  states sm' = states sm ∧ transitions sm' = transitions sm ∧
  (CurrentState sm' = CurrentState sm ∨
   ∃ t, t ∈ transitions sm ∧ tr_CurrentState t = CurrentState sm ∧
        CurrentState sm' = tr_NextState t).
Proof.
  unfold HandleStateMachine.
  destruct (executeActionsInHierarchy _ _ _ _ _ _) as [w1| |]; simpl;
    try done.
  intros [->|(t & Ht & Hsrc & ->)]%HandleStateMachine_scan_result.
  - split_and!; [done..|]. by left.
  - split_and!; [done..|]. right. by exists t.
Qed.

(** X9.  When the chain of the current state and the chains of all
    targets end within [MaxStates] states, a tick returns: it neither
    panics nor runs forever; and the engine it returns satisfies the same
    condition, so that every later tick returns too. *)
Theorem tick_returns_and_keeps_chainsFit fuel sm w :
  chainsFit deref sm = true → MaxStates ≤ fuel →
  ∃ sm' w',
    HandleStateMachine deref fuel sm w = Done (sm', w') ∧
    chainsFit deref sm' = true.
Proof.
  intros Hfit Hfuel. pose proof Hfit as Hfit'.
  unfold chainsFit in Hfit. apply andb_true_iff in Hfit as [Hcur Hts].
  apply rootWithin_ancestry in Hcur as (ls & Hs & Hms).
  unfold HandleStateMachine.
  rewrite (executeActionsInHierarchy_chain _ _ _ ls) by (done || lia).
  simpl.
  destruct (HandleStateMachine_scan_returns fuel sm (transitions sm)
              (executeActions (actionsOf deref Handle (rev ls))
                 (CurrentState sm) w) ls Hs Hms Hfuel Hts)
    as (sm' & w' & Hscan).
  exists sm', w'. split; [done|].
  apply HandleStateMachine_scan_result in Hscan
    as [->|(t & Ht & _ & ->)]; [done|].
  unfold chainsFit, moveTo. simpl. apply andb_true_iff. split; [|done].
  rewrite forallb_forall in Hts. apply Hts. by apply list_elem_of_In.
Qed.

(** X10.  The count of declared states does not bound the chains: an
    engine whose current state has a chain of more than [MaxStates] states
    is accepted by the constructor as long as at most [MaxStates] states
    are declared, and its first tick that selects a transition panics with
    an index out of range. *)
Theorem long_chain_passes_construction_and_panics fuel sm w0 w w1 w2
    (pre post : list Transition) (t : Transition) ls :
  ancestry deref (CurrentState sm) ls →
  MaxStates < length ls → length ls ≤ fuel →
  length (states sm) ≤ MaxStates →
  transitions sm = pre ++ t :: post →
  noneMatches pre (CurrentState sm)
    (executeActions (actionsOf deref Handle (rev ls)) (CurrentState sm) w)
    = Some w1 →
  transitionMatches t (CurrentState sm) w1 = (true, w2) →
  NewHierarchicalStateMachine deref fuel (CurrentState sm) (states sm)
    (transitions sm) w0 =
  Done (Some sm, None,
        executeActions (actionsOf deref Entry (rev ls)) (CurrentState sm) w0)
  ∧ HandleStateMachine deref fuel sm w = Panicked IndexOutOfRange.
Proof.
  intros Hs Hlong Hfuel Hsts Hts Hpre Hmatch. split.
  - unfold NewHierarchicalStateMachine.
    rewrite bool_decide_eq_false_2 by lia. simpl.
    rewrite (executeActionsInHierarchy_chain _ _ _ ls) by done.
    by destruct sm.
  - rewrite (first_match_scan deref fuel sm w _ w1 w2 pre post t Hts
               (executeActionsInHierarchy_chain _ _ _ ls _ _ _ Hs Hfuel)
               Hpre Hmatch).
    pose proof (transitionMatches_source _ _ _ _ Hmatch) as Hsrc.
    rewrite (executeTransitionActions_overrun _ _ _ _ ls);
      (done || by rewrite Hsrc).
Qed.

(** X11.  The transitions whose source is not the current state play no
    part in a tick: none of their events or guards is evaluated, and the
    tick is the one of the table restricted to the transitions that leave
    the current state. *)
Theorem tick_ignores_other_sources fuel sm w :
  HandleStateMachine deref fuel sm w =
  (w1 ← executeActionsInHierarchy deref fuel (CurrentState sm) Handle
          (CurrentState sm) w;
   HandleStateMachine_scan deref fuel sm
     (filter (λ t, CurrentState sm = tr_CurrentState t) (transitions sm))
     w1).
Proof.
  unfold HandleStateMachine.
  destruct (executeActionsInHierarchy _ _ _ _ _ _); simpl; [|done..].
  apply HandleStateMachine_scan_own_source.
Qed.

(** X12.  The exit walk towards a state that is not on the chain of its
    start runs off the root and dereferences [nil]. *)
Theorem exit_walk_off_chain_dereferences_nil fuel s l x cur w :
  ancestry deref s l → x ∉ l → length l < fuel →
  exitToCommonAncestor deref fuel s (Some x) cur w =
  Panicked NilDereference.
Proof. apply exitToCommonAncestor_off_chain. Qed.

(** X13.  The entry walk towards a state that is not on the chain of its
    start panics in its first loop, the one that fills the stack and calls
    no action, so that the loop calling the entry actions is not reached:
    it dereferences [nil] when the chain has fewer than [MaxStates]
    states, and otherwise writes beyond the stack. *)
Theorem entry_walk_off_chain_panics fuel s l x cur w :
  ancestry deref s l → x ∉ l → length l < fuel →
  enterFromCommonAncestor_push deref fuel s (Some x) newArray 0 =
  Panicked (if bool_decide (length l < MaxStates)
            then NilDereference else IndexOutOfRange) ∧
  enterFromCommonAncestor deref fuel s (Some x) cur w =
  Panicked (if bool_decide (length l < MaxStates)
            then NilDereference else IndexOutOfRange).
Proof.
  intros Hl Hx Hfuel. unfold enterFromCommonAncestor.
  rewrite (enterFromCommonAncestor_push_off_chain _ _ l) by (done || lia).
  split; reflexivity.
Qed.

(** X14.  When the chain of the current state runs into a cycle, neither
    a tick nor the construction of an engine on that state returns,
    whatever the fuel: the hierarchical dispatch recurses forever, before
    any action has run. *)
Theorem cyclic_ancestry_never_returns fuel sm w m k x :
  ancestorAt deref m (CurrentState sm) = Some x →
  ancestorAt deref (S k) (Some x) = Some x →
  HandleStateMachine deref fuel sm w = Diverged ∧
  (length (states sm) ≤ MaxStates →
   NewHierarchicalStateMachine deref fuel (CurrentState sm) (states sm)
     (transitions sm) w = Diverged).
Proof.
  intros Hreach Hcycle.
  assert (∀ l, ¬ ancestry deref (CurrentState sm) l) as Hno
    by (intros l; by eapply cycle_no_chain).
  split.
  - unfold HandleStateMachine.
    by rewrite executeActionsInHierarchy_no_chain_diverges.
  - intros Hsts. unfold NewHierarchicalStateMachine.
    rewrite bool_decide_eq_false_2 by lia. simpl.
    by rewrite executeActionsInHierarchy_no_chain_diverges.
Qed.

End Further.

(** * The machines of the test suite *)

Section Scenarios.

Import Fixture.
Local Open Scope string_scope.
Local Open Scope list_scope.
Local Open Scope nat_scope.

(** Chains of concrete stores are checked by unfolding them. *)
Ltac chain := cbn; repeat split; reflexivity.
Ltac bound := unfold MaxStates; cbn; lia.

(** ** [TestNestedStates] *)

Example nested_construction :
  NewHierarchicalStateMachine nested 10 (Some 2) nestedStates
    nestedTransitions [] =
  Done (Some (nestedMachine (Some 2)), None,
        ["Parent State 2 Entry"; "Parent State Entry"; "State 1 Entry"]).
Proof. reflexivity. Qed.

Example nested_tick_1 :
  observed (HandleStateMachine nested 10 (nestedMachine (Some 2)) []) =
  Done (Some 3,
        ["Parent State 2 Handle"; "Parent State Handle"; "State 1 Handle";
         "State 1 Exit"; "Parent State Exit";
         "State 1 -> State 2 Transition"; "State 2 Entry"]).
Proof. reflexivity. Qed.

Example nested_tick_2 :
  observed (HandleStateMachine nested 10 (nestedMachine (Some 3)) []) =
  Done (Some 4,
        ["Parent State 2 Handle"; "State 2 Handle"; "State 2 Exit";
         "Parent State 2 Exit"; "State 2 -> State 3 Transition";
         "State 3 Entry"]).
Proof. reflexivity. Qed.

Example nested_tick_3 :
  observed (HandleStateMachine nested 10 (nestedMachine (Some 4)) []) =
  Done (Some 2,
        ["State 3 Handle"; "State 3 Exit";
         "State 3 -> Parent State Transition"; "Parent State 2 Entry";
         "Parent State Entry"; "State 1 Entry"]).
Proof. reflexivity. Qed.

(** No transition leaves [parentState]: only the handle actions run. *)
Example nested_tick_no_match :
  observed (HandleStateMachine nested 10 (nestedMachine (Some 1)) []) =
  Done (Some 1, ["Parent State 2 Handle"; "Parent State Handle"]).
Proof. reflexivity. Qed.

(** ** Order of transitions and guards, and what callbacks read *)

Example rival_tick :
  observed (HandleStateMachine nested 10 rivalMachine []) =
  Done (Some 3,
        ["Parent State 2 Handle"; "Parent State Handle"; "State 1 Handle";
         "State 1 Exit"; "Parent State Exit"; "First Transition";
         "State 2 Entry"]).
Proof. reflexivity. Qed.

Example guarded_tick :
  observed (HandleStateMachine nested 10 guardedMachine []) =
  Done (Some 2,
        ["Parent State 2 Handle"; "Parent State Handle"; "State 1 Handle";
         "event"; "g1"]).
Proof. reflexivity. Qed.

Example watched_tick :
  observed (HandleStateMachine watched 10 watchedMachine []) =
  Done (Some 3,
        ["Parent State 2 Handle sees 2"; "Parent State Handle sees 2";
         "State 1 Handle sees 2"; "State 1 Exit sees 2";
         "Parent State Exit sees 2"; "Transition sees 2";
         "State 2 Entry sees 2"]).
Proof. reflexivity. Qed.

(** ** Beyond the bound and with cyclic ancestry *)

(** Eleven states on the source chain overrun the [visited] array. *)
Example tower_search_overrun :
  findCommonAncestor tower 20 (Some 10) (Some 3) =
  Panicked IndexOutOfRange.
Proof. reflexivity. Qed.

(** Eleven states to enter overrun the [stack] array. *)
Example tower_entry_overrun :
  enterFromCommonAncestor tower 20 (Some 11) (Some 0) None [] =
  Panicked IndexOutOfRange.
Proof. reflexivity. Qed.

(** Ten states fit. *)
Example tower_search_fits :
  findCommonAncestor tower 20 (Some 9) (Some 3) = Done (Some 3).
Proof. reflexivity. Qed.

(** With cyclic ancestry the hierarchical dispatch never returns. *)
Lemma looped_dispatch_diverges fuel r (sel : State -> list Action) cur w :
  executeActionsInHierarchy looped fuel (Some r) sel cur w = Diverged.
Proof.
  induction fuel as [|fuel IH]; [done|].
  cbn [executeActionsInHierarchy]. cbn [looped mkState ParentState].
  by rewrite IH.
Qed.

(** More than [MaxStates] declared states: the error of the constructor. *)
Example too_many_states_message :
  NewHierarchicalStateMachine nested 10 (Some 2)
    (replicate 11 (nested 0)) nestedTransitions [] =
  Done (None, Some "too many states declared: 11. max allowed is 10", []).
Proof. reflexivity. Qed.

(** ** The claims at the machines of the test suite *)

Lemma transition_effects_order_witness :
  let t := mkTransition (Some 2) (Some 3) "State 1 -> State 2 Transition" in
  ancestry nested (Some 2) [2; 1; 0] ∧
  ancestry nested (Some 3) [3; 0] ∧
  length [2; 1; 0] ≤ MaxStates ∧ length [3; 0] ≤ MaxStates ∧
  MaxStates ≤ 10 ∧
  ∃ a,
    findCommonAncestor nested 10 (tr_CurrentState t) (tr_NextState t)
      = Done a ∧
    executeTransitionActions nested 10 t (Some 2) [] =
      Done (inOrder
              (actionsOf nested Exit (upTo a [2; 1; 0]) ++
               tr_Actions t ++
               actionsOf nested Entry (rev (upTo a [3; 0]))) (Some 2) []) ∧
    (a = tr_CurrentState t → upTo a [2; 1; 0] = []) ∧
    (a = tr_NextState t → upTo a [3; 0] = []).
Proof.
  intros t. split_and!; [chain | chain | bound | bound | bound |].
  apply (transition_effects_order nested 10 t (Some 2) [] [2; 1; 0] [3; 0]);
    [chain | chain | bound | bound | bound].
Defined.


Lemma construction_rejects_too_many_states_witness :
  MaxStates < length (replicate 11 (nested 0)) ∧
  NewHierarchicalStateMachine nested 10 (Some 2) (replicate 11 (nested 0))
    nestedTransitions [] =
  Done (None,
        Some "too many states declared: 11. max allowed is 10", []).
Proof.
  split; [bound|].
  apply (construction_rejects_too_many_states nested 10 (Some 2)
           (replicate 11 (nested 0)) nestedTransitions []).
  bound.
Defined.

Lemma construction_entry_order_witness :
  ancestry nested (Some 2) [2; 1; 0] ∧ length [2; 1; 0] ≤ 10 ∧
  length nestedStates ≤ MaxStates ∧
  NoDup (rev [2; 1; 0]) ∧
  NewHierarchicalStateMachine nested 10 (Some 2) nestedStates
    nestedTransitions [] =
  Done (Some {| CurrentState := Some 2;
                states := nestedStates;
                transitions := nestedTransitions |},
        None,
        inOrder (actionsOf nested Entry (rev [2; 1; 0])) (Some 2) []).
Proof.
  do 3 (split; [first [chain | bound]|]).
  apply (construction_entry_order nested 10 (Some 2) nestedStates
           nestedTransitions [] [2; 1; 0]); [chain | bound | bound].
Defined.

Lemma handle_dispatch_every_tick_witness :
  let sm := nestedMachine (Some 2) in
  ancestry nested (CurrentState sm) [2; 1; 0] ∧ length [2; 1; 0] ≤ 10 ∧
  NoDup (rev [2; 1; 0]) ∧
  HandleStateMachine nested 10 sm [] =
  HandleStateMachine_scan nested 10 sm (transitions sm)
    (inOrder (actionsOf nested Handle (rev [2; 1; 0]))
       (CurrentState sm) []).
Proof.
  intros sm. do 2 (split; [first [chain | bound]|]).
  apply (handle_dispatch_every_tick nested 10 sm [] [2; 1; 0]);
    [chain | bound].
Defined.

Lemma no_match_tick_witness :
  let sm := nestedMachine (Some 1) in
  let w1 := ["Parent State 2 Handle"; "Parent State Handle"] in
  ancestry nested (CurrentState sm) [1; 0] ∧ length [1; 0] ≤ 10 ∧
  noneMatches (transitions sm) (CurrentState sm)
    (executeActions (actionsOf nested Handle (rev [1; 0]))
       (CurrentState sm) []) = Some w1 ∧
  HandleStateMachine nested 10 sm [] = Done (sm, w1) ∧
  ((∀ t, t ∈ transitions sm →
      purePredicate (tr_Event t) ∧ Forall purePredicate (tr_Guards t)) →
   w1 = executeActions (actionsOf nested Handle (rev [1; 0]))
          (CurrentState sm) []).
Proof.
  intros sm w1. do 3 (split; [first [chain | bound | reflexivity]|]).
  apply (no_match_tick nested 10 sm [] w1 [1; 0]);
    [chain | bound | reflexivity].
Defined.

Lemma guards_short_circuit_witness :
  let g1 := recordPredicate "g1" false in
  let g2 := recordPredicate "g2" true in
  evalAll [] (Some 2) ["event"] = ([], ["event"]) ∧
  forallb id [] = true ∧
  g1 (Some 2) ["event"] = (false, ["event"; "g1"]) ∧
  evalGuards ([] ++ g1 :: [g2]) (Some 2) ["event"] =
    (false, ["event"; "g1"]) ∧
  (∀ fuel sm (t : Transition) rest w0,
     CurrentState sm = Some 2 → tr_CurrentState t = Some 2 →
     tr_Event t (Some 2) w0 = (true, ["event"]) →
     tr_Guards t = [] ++ g1 :: [g2] →
     HandleStateMachine_scan nested fuel sm (t :: rest) w0 =
     HandleStateMachine_scan nested fuel sm rest ["event"; "g1"]) ∧
  evalGuards [] (Some 2) ["event"] = (true, ["event"]).
Proof.
  intros g1 g2. do 3 (split; [reflexivity|]).
  apply (guards_short_circuit nested [] [g2] g1 (Some 2) ["event"] []
           ["event"] ["event"; "g1"]); reflexivity.
Defined.

Lemma common_ancestor_deepest_witness :
  (ancestry nested (Some 2) [2; 1; 0] ∧ ancestry nested (Some 3) [3; 0] ∧
   length [2; 1; 0] ≤ MaxStates ∧ length [2; 1; 0] ≤ 10 ∧
   length [3; 0] ≤ 10 ∧
   ∃ a,
     findCommonAncestor nested 10 (Some 2) (Some 3) = Done a ∧
     a = firstCommon [2; 1; 0] [3; 0] ∧
     (∀ r, a = Some r →
        r ∈ [2; 1; 0] ∧ r ∈ [3; 0] ∧
        ∀ c lr, c ∈ [2; 1; 0] → c ∈ [3; 0] →
                ancestry nested (Some r) lr → c ∈ lr) ∧
     (a = None ↔ ∀ c, c ∈ [3; 0] → c ∉ [2; 1; 0]) ∧
     (a = None → length [3; 0] ≤ MaxStates →
      ∀ (t : Transition) cur w,
        tr_CurrentState t = Some 2 → tr_NextState t = Some 3 →
        executeTransitionActions nested 10 t cur w =
        Done (inOrder
                (actionsOf nested Exit [2; 1; 0] ++ tr_Actions t ++
                 actionsOf nested Entry (rev [3; 0])) cur w))) ∧
  (ancestry nested (Some 2) [2; 1; 0] ∧ ancestry nested (Some 4) [4] ∧
   length [2; 1; 0] ≤ MaxStates ∧ length [2; 1; 0] ≤ 10 ∧
   length [4] ≤ 10 ∧
   ∃ a,
     findCommonAncestor nested 10 (Some 2) (Some 4) = Done a ∧
     a = firstCommon [2; 1; 0] [4] ∧
     (∀ r, a = Some r →
        r ∈ [2; 1; 0] ∧ r ∈ [4] ∧
        ∀ c lr, c ∈ [2; 1; 0] → c ∈ [4] →
                ancestry nested (Some r) lr → c ∈ lr) ∧
     (a = None ↔ ∀ c, c ∈ [4] → c ∉ [2; 1; 0]) ∧
     (a = None → length [4] ≤ MaxStates →
      ∀ (t : Transition) cur w,
        tr_CurrentState t = Some 2 → tr_NextState t = Some 4 →
        executeTransitionActions nested 10 t cur w =
        Done (inOrder
                (actionsOf nested Exit [2; 1; 0] ++ tr_Actions t ++
                 actionsOf nested Entry (rev [4])) cur w))).
Proof.
  split.
  - split_and!; [chain | chain | bound | bound | bound |].
    apply (common_ancestor_deepest nested 10 (Some 2) (Some 3)
             [2; 1; 0] [3; 0]); [chain | chain | bound | bound | bound].
  - split_and!; [chain | chain | bound | bound | bound |].
    apply (common_ancestor_deepest nested 10 (Some 2) (Some 4)
             [2; 1; 0] [4]); [chain | chain | bound | bound | bound].
Defined.

Lemma current_state_updated_last_witness :
  let sm := watchedMachine in
  let w1 :=
    ["Parent State 2 Handle sees 2"; "Parent State Handle sees 2";
     "State 1 Handle sees 2"] in
  transitions sm = [] ++ watchedTransition :: [] ∧
  ancestry watched (CurrentState sm) [2; 1; 0] ∧
  ancestry watched (tr_NextState watchedTransition) [3; 0] ∧
  length [2; 1; 0] ≤ MaxStates ∧ length [3; 0] ≤ MaxStates ∧
  MaxStates ≤ 10 ∧
  noneMatches [] (CurrentState sm)
    (executeActions (actionsOf watched Handle (rev [2; 1; 0]))
       (CurrentState sm) []) = Some w1 ∧
  transitionMatches watchedTransition (CurrentState sm) w1 = (true, w1) ∧
  ∃ sm',
    HandleStateMachine watched 10 sm [] =
    Done (sm',
          executeActions
            (transitionEffects watched watchedTransition [2; 1; 0] [3; 0])
            (CurrentState sm) w1) ∧
    CurrentState sm' = tr_NextState watchedTransition ∧
    states sm' = states sm ∧ transitions sm' = transitions sm.
Proof.
  intros sm w1.
  split_and!;
    [reflexivity | chain | chain | bound | bound | bound
    | reflexivity | reflexivity |].
  apply (current_state_updated_last watched 10 sm [] w1 w1 [] []
           watchedTransition [2; 1; 0] [3; 0]);
    [reflexivity | chain | chain | bound | bound | bound
    | reflexivity | reflexivity].
Defined.

Lemma scratch_arrays_in_bounds_witness :
  ancestry tower (Some 9) [9; 8; 7; 6; 5; 4; 3; 2; 1; 0] ∧
  ancestry tower (Some 3) [3; 2; 1; 0] ∧
  length [9; 8; 7; 6; 5; 4; 3; 2; 1; 0] ≤ MaxStates ∧
  length [3; 2; 1; 0] ≤ MaxStates ∧ MaxStates ≤ 10 ∧
  ∃ a visited stack w',
    findCommonAncestor_collect tower 10 (Some 9) newArray 0 =
      Done (visited, length [9; 8; 7; 6; 5; 4; 3; 2; 1; 0]) ∧
    findCommonAncestor tower 10 (Some 9) (Some 3) = Done a ∧
    enterFromCommonAncestor_push tower 10 (Some 3) a newArray 0 =
      Done (stack, length (upTo a [3; 2; 1; 0])) ∧
    enterFromCommonAncestor tower 10 (Some 3) a None [] = Done w' ∧
    length visited = MaxStates ∧ length stack = MaxStates ∧
    length (upTo a [3; 2; 1; 0]) ≤ MaxStates.
Proof.
  split_and!; [chain | chain | bound | bound | bound |].
  apply (scratch_arrays_in_bounds tower 10 (Some 9) (Some 3)
           [9; 8; 7; 6; 5; 4; 3; 2; 1; 0] [3; 2; 1; 0] None []);
    [chain | chain | bound | bound | bound].
Defined.

(** On the log of the tests, applying recorded actions in order appends
    their names, one entry for each action. *)
Lemma inOrder_records_names (names : list string) (cur : option StateRef)
    (log : Log) :
  inOrder (recordAction <$> names) cur log = log ++ names.
Proof.
  revert log. induction names as [|name names IH]; intros log.
  - by rewrite app_nil_r.
  - cbn. unfold inOrder in IH. rewrite IH.
    unfold recordAction. by rewrite <- app_assoc.
Qed.

(** The tick of [contestedMachine]: the predicates are evaluated in the
    order of the table, and the transition after the chosen one is not
    looked at. *)
Example contested_tick :
  observed (HandleStateMachine nested 10 contestedMachine []) =
  Done (Some 3,
        ["Parent State 2 Handle"; "Parent State Handle"; "State 1 Handle";
         "e1"; "g1"; "e2"; "e3"; "g3a"; "g3b";
         "State 1 Exit"; "Parent State Exit"; "Chosen"; "State 2 Entry"]).
Proof. reflexivity. Qed.

(** ** Chains of more than [MaxStates] states *)

(** The transition from state 3 of [tower] to state 15 has acyclic chains
    and the source as common ancestor; twelve states are to be entered.
    Its own action runs, then the entry walk overruns its stack: the
    entry actions never run, and the effects that C1 announces are not
    produced. *)
Lemma transition_effects_order_counterexample :
  ancestry tower (tr_CurrentState tallTransition) [3; 2; 1; 0] ∧
  ancestry tower (tr_NextState tallTransition)
    [15; 14; 13; 12; 11; 10; 9; 8; 7; 6; 5; 4; 3; 2; 1; 0] ∧
  findCommonAncestor tower 20 (tr_CurrentState tallTransition)
    (tr_NextState tallTransition) = Done (Some 3) ∧
  exitToCommonAncestor tower 20 (Some 3) (Some 3) (Some 3) [] = Done [] ∧
  inOrder (tr_Actions tallTransition) (Some 3) [] = ["Up"] ∧
  enterFromCommonAncestor tower 20 (Some 15) (Some 3) (Some 3) ["Up"] =
    Panicked IndexOutOfRange ∧
  executeTransitionActions tower 20 tallTransition (Some 3) [] =
    Panicked IndexOutOfRange ∧
  executeTransitionActions tower 20 tallTransition (Some 3) [] ≠
    Done (inOrder
            (actionsOf tower Exit (upTo (Some 3) [3; 2; 1; 0]) ++
             tr_Actions tallTransition ++
             actionsOf tower Entry
               (rev (upTo (Some 3)
                       [15; 14; 13; 12; 11; 10; 9; 8; 7; 6; 5; 4; 3; 2; 1;
                        0]))) (Some 3) []).
Proof. split_and!; [chain | chain | reflexivity.. | done]. Qed.

(** States 10 and 3 of [tower] have acyclic chains and state 3 is their
    deepest common state, but the chain of state 10 has eleven states: the
    search overruns its array and returns nothing. *)
Lemma common_ancestor_deepest_counterexample :
  ancestry tower (Some 10) [10; 9; 8; 7; 6; 5; 4; 3; 2; 1; 0] ∧
  ancestry tower (Some 3) [3; 2; 1; 0] ∧
  firstCommon [10; 9; 8; 7; 6; 5; 4; 3; 2; 1; 0] [3; 2; 1; 0] = Some 3 ∧
  findCommonAncestor tower 20 (Some 10) (Some 3) =
    Panicked IndexOutOfRange ∧
  findCommonAncestor tower 20 (Some 10) (Some 3) ≠ Done (Some 3).
Proof. split_and!; [chain | chain | reflexivity.. | done]. Qed.

(** A tick of [tallMachine] selects its transition, runs the handle
    actions and the action of the transition, and panics in the entry
    walk: the action of the transition has taken place, no entry action
    has, and the engine still shows the source as its current state. *)
Lemma current_state_updated_last_counterexample :
  ancestry tower (CurrentState tallMachine) [3; 2; 1; 0] ∧
  ancestry tower (tr_NextState tallTransition)
    [15; 14; 13; 12; 11; 10; 9; 8; 7; 6; 5; 4; 3; 2; 1; 0] ∧
  transitions tallMachine = [tallTransition] ∧
  executeActionsInHierarchy tower 20 (CurrentState tallMachine) Handle
    (CurrentState tallMachine) [] =
    Done ["0 Handle"; "1 Handle"; "2 Handle"; "3 Handle"] ∧
  transitionMatches tallTransition (CurrentState tallMachine)
    ["0 Handle"; "1 Handle"; "2 Handle"; "3 Handle"] =
    (true, ["0 Handle"; "1 Handle"; "2 Handle"; "3 Handle"]) ∧
  exitToCommonAncestor tower 20 (Some 3) (Some 3) (Some 3)
    ["0 Handle"; "1 Handle"; "2 Handle"; "3 Handle"] =
    Done ["0 Handle"; "1 Handle"; "2 Handle"; "3 Handle"] ∧
  inOrder (tr_Actions tallTransition) (Some 3)
    ["0 Handle"; "1 Handle"; "2 Handle"; "3 Handle"] =
    ["0 Handle"; "1 Handle"; "2 Handle"; "3 Handle"; "Up"] ∧
  enterFromCommonAncestor tower 20 (Some 15) (Some 3) (Some 3)
    ["0 Handle"; "1 Handle"; "2 Handle"; "3 Handle"; "Up"] =
    Panicked IndexOutOfRange ∧
  HandleStateMachine tower 20 tallMachine [] = Panicked IndexOutOfRange ∧
  CurrentState tallMachine = Some 3 ∧
  tr_NextState tallTransition = Some 15.
Proof. split_and!; [chain | chain | reflexivity..]. Qed.

End Scenarios.

(** * Further properties at the machines of the test suite *)

Section FurtherScenarios.

Import Fixture.
Local Open Scope string_scope.
Local Open Scope list_scope.
Local Open Scope nat_scope.

Ltac chain := cbn; repeat split; reflexivity.
Ltac bound := unfold MaxStates; cbn; lia.
Ltac absent := compute_done.

(** X15.  The actions that [recordAction] makes append their names to the
    log, in the order in which [executeActions] runs them. *)
Theorem recorded_actions_append_their_names (names : list string)
    (cur : option StateRef) (log : Log) :
  executeActions (recordAction <$> names) cur log = log ++ names.
Proof.
  revert log. induction names as [|name names IH]; intros log; simpl.
  - by rewrite app_nil_r.
  - rewrite IH. unfold recordAction. by rewrite <- app_assoc.
Qed.

Lemma transition_leaves_and_enters_differences_witness :
  let t := mkTransition (Some 2) (Some 3) "State 1 -> State 2 Transition" in
  ancestry nested (tr_CurrentState t) [2; 1; 0] ∧
  ancestry nested (tr_NextState t) [3; 0] ∧
  length [2; 1; 0] ≤ MaxStates ∧ length [3; 0] ≤ MaxStates ∧
  MaxStates ≤ 10 ∧
  executeTransitionActions nested 10 t (Some 2) [] =
  Done (executeActions
          (actionsOf nested Exit (filter (λ x, x ∉ [3; 0]) [2; 1; 0]) ++
           tr_Actions t ++
           actionsOf nested Entry (rev (filter (λ x, x ∉ [2; 1; 0]) [3; 0])))
          (Some 2) []).
Proof.
  intros t. do 5 (split; [first [chain | bound]|]).
  apply (transition_leaves_and_enters_differences nested 10 t (Some 2) []
           [2; 1; 0] [3; 0]); first [chain | bound].
Defined.

Lemma findCommonAncestor_symmetric_witness :
  ancestry nested (Some 2) [2; 1; 0] ∧ ancestry nested (Some 3) [3; 0] ∧
  length [2; 1; 0] ≤ MaxStates ∧ length [3; 0] ≤ MaxStates ∧
  MaxStates ≤ 10 ∧
  findCommonAncestor nested 10 (Some 2) (Some 3) =
  findCommonAncestor nested 10 (Some 3) (Some 2).
Proof.
  do 5 (split; [first [chain | bound]|]).
  apply (findCommonAncestor_symmetric nested 10 (Some 2) (Some 3)
           [2; 1; 0] [3; 0]); first [chain | bound].
Defined.

Lemma self_transition_runs_only_its_actions_witness :
  let t := mkTransition (Some 2) (Some 2) "Again" in
  tr_NextState t = tr_CurrentState t ∧
  ancestry nested (tr_CurrentState t) [2; 1; 0] ∧
  length [2; 1; 0] ≤ MaxStates ∧ MaxStates ≤ 10 ∧
  executeTransitionActions nested 10 t (Some 2) [] =
  Done (executeActions (tr_Actions t) (Some 2) []).
Proof.
  intros t. do 4 (split; [first [chain | bound]|]).
  apply (self_transition_runs_only_its_actions nested 10 t (Some 2) []
           [2; 1; 0]); first [chain | bound].
Defined.

Lemma sibling_transition_spares_the_parent_witness :
  let t := mkTransition (Some 3) (Some 1) "Across" in
  tr_CurrentState t = Some 3 ∧ tr_NextState t = Some 1 ∧ 3 ≠ 1 ∧
  ParentState (nested 1) = ParentState (nested 3) ∧
  ancestry nested (ParentState (nested 3)) [0] ∧
  length [0] < MaxStates ∧ MaxStates ≤ 10 ∧
  executeTransitionActions nested 10 t (Some 3) [] =
  Done (executeActions
          (Exit (nested 3) ++ tr_Actions t ++ Entry (nested 1)) (Some 3) []).
Proof.
  intros t. do 7 (split; [first [chain | bound]|]).
  apply (sibling_transition_spares_the_parent nested 10 t (Some 3) []
           3 1 [0]); first [chain | bound].
Defined.

Lemma transition_to_ancestor_enters_nothing_witness :
  let t := mkTransition (Some 2) (Some 0) "Up" in
  ancestry nested (tr_CurrentState t) [2; 1; 0] ∧
  tr_NextState t = Some 0 ∧ 0 ∈ [2; 1; 0] ∧
  length [2; 1; 0] ≤ MaxStates ∧ MaxStates ≤ 10 ∧
  executeTransitionActions nested 10 t (Some 2) [] =
  Done (executeActions
          (actionsOf nested Exit (upTo (Some 0) [2; 1; 0]) ++ tr_Actions t)
          (Some 2) []).
Proof.
  intros t.
  do 5 (split; [first [chain | bound | compute_done]|]).
  apply (transition_to_ancestor_enters_nothing nested 10 t (Some 2) []
           [2; 1; 0] 0);
    first [chain | bound | compute_done].
Defined.

Lemma transition_from_ancestor_leaves_nothing_witness :
  let t := mkTransition (Some 0) (Some 2) "Down" in
  ancestry nested (tr_NextState t) [2; 1; 0] ∧
  tr_CurrentState t = Some 0 ∧ 0 ∈ [2; 1; 0] ∧
  length [2; 1; 0] ≤ MaxStates ∧ MaxStates ≤ 10 ∧
  executeTransitionActions nested 10 t (Some 0) [] =
  Done (executeActions
          (tr_Actions t ++
           actionsOf nested Entry (rev (upTo (Some 0) [2; 1; 0])))
          (Some 0) []).
Proof.
  intros t.
  do 5 (split; [first [chain | bound | compute_done]|]).
  apply (transition_from_ancestor_leaves_nothing nested 10 t (Some 0) []
           [2; 1; 0] 0);
    first [chain | bound | compute_done].
Defined.

Lemma findCommonAncestor_panics_iff_chain_too_long_witness :
  MaxStates < 11 ∧
  (findCommonAncestor tower 11 (Some 10) (Some 3) = Panicked IndexOutOfRange
   ↔ rootWithin tower MaxStates (Some 10) = false) ∧
  findCommonAncestor tower 11 (Some 10) (Some 3) ≠ Panicked NilDereference.
Proof.
  split; [bound|].
  apply (findCommonAncestor_panics_iff_chain_too_long tower 11 (Some 10)
           (Some 3)); bound.
Defined.

Lemma tick_moves_along_a_declared_transition_witness :
  let sm := nestedMachine (Some 2) in
  let sm' := nestedMachine (Some 3) in
  let w' :=
    ["Parent State 2 Handle"; "Parent State Handle"; "State 1 Handle";
     "State 1 Exit"; "Parent State Exit";
     "State 1 -> State 2 Transition"; "State 2 Entry"] in
  HandleStateMachine nested 10 sm [] = Done (sm', w') ∧
  states sm' = states sm ∧ transitions sm' = transitions sm ∧
  (CurrentState sm' = CurrentState sm ∨
   ∃ t, t ∈ transitions sm ∧ tr_CurrentState t = CurrentState sm ∧
        CurrentState sm' = tr_NextState t).
Proof.
  intros sm sm' w'. split; [reflexivity|].
  apply (tick_moves_along_a_declared_transition nested 10 sm [] sm' w').
  reflexivity.
Defined.

Lemma tick_returns_and_keeps_chainsFit_witness :
  let sm := nestedMachine (Some 2) in
  chainsFit nested sm = true ∧ MaxStates ≤ 10 ∧
  ∃ sm' w',
    HandleStateMachine nested 10 sm [] = Done (sm', w') ∧
    chainsFit nested sm' = true.
Proof.
  intros sm. do 2 (split; [first [reflexivity | bound]|]).
  apply (tick_returns_and_keeps_chainsFit nested 10 sm []);
    first [reflexivity | bound].
Defined.

Lemma long_chain_passes_construction_and_panics_witness :
  let sm := towerMachine in
  let ls := [10; 9; 8; 7; 6; 5; 4; 3; 2; 1; 0] in
  let t := mkTransition (Some 10) (Some 3) "Down" in
  let w1 := executeActions (actionsOf tower Handle (rev ls)) (Some 10) [] in
  ancestry tower (CurrentState sm) ls ∧
  MaxStates < length ls ∧ length ls ≤ 11 ∧
  length (states sm) ≤ MaxStates ∧
  transitions sm = [] ++ t :: [] ∧
  noneMatches [] (CurrentState sm)
    (executeActions (actionsOf tower Handle (rev ls)) (CurrentState sm) [])
    = Some w1 ∧
  transitionMatches t (CurrentState sm) w1 = (true, w1) ∧
  NewHierarchicalStateMachine tower 11 (CurrentState sm) (states sm)
    (transitions sm) [] =
  Done (Some sm, None,
        executeActions (actionsOf tower Entry (rev ls)) (CurrentState sm) [])
  ∧ HandleStateMachine tower 11 sm [] = Panicked IndexOutOfRange.
Proof.
  intros sm ls t w1.
  do 7 (split; [first [chain | bound | reflexivity]|]).
  apply (long_chain_passes_construction_and_panics tower 11 sm [] [] w1 w1
           [] [] t ls); first [chain | bound | reflexivity].
Defined.

Lemma exit_walk_off_chain_dereferences_nil_witness :
  ancestry nested (Some 2) [2; 1; 0] ∧ (4 ∉ [2; 1; 0]) ∧
  length [2; 1; 0] < 10 ∧
  exitToCommonAncestor nested 10 (Some 2) (Some 4) (Some 2) [] =
  Panicked NilDereference.
Proof.
  do 3 (split; [first [chain | bound | absent]|]).
  apply (exit_walk_off_chain_dereferences_nil nested 10 (Some 2)
           [2; 1; 0] 4 (Some 2) []); first [chain | bound | absent].
Defined.

Lemma entry_walk_off_chain_panics_witness :
  ancestry nested (Some 2) [2; 1; 0] ∧ (4 ∉ [2; 1; 0]) ∧
  length [2; 1; 0] < 10 ∧
  enterFromCommonAncestor_push nested 10 (Some 2) (Some 4) newArray 0 =
  Panicked (if bool_decide (length [2; 1; 0] < MaxStates)
            then NilDereference else IndexOutOfRange) ∧
  enterFromCommonAncestor nested 10 (Some 2) (Some 4) (Some 2) [] =
  Panicked (if bool_decide (length [2; 1; 0] < MaxStates)
            then NilDereference else IndexOutOfRange).
Proof.
  do 3 (split; [first [chain | bound | absent]|]).
  apply (entry_walk_off_chain_panics nested 10 (Some 2)
           [2; 1; 0] 4 (Some 2) []); first [chain | bound | absent].
Defined.

Lemma cyclic_ancestry_never_returns_witness :
  let sm := loopedMachine in
  ancestorAt looped 0 (CurrentState sm) = Some 0 ∧
  ancestorAt looped 1 (Some 0) = Some 0 ∧
  HandleStateMachine looped 1000 sm [] = Diverged ∧
  (length (states sm) ≤ MaxStates →
   NewHierarchicalStateMachine looped 1000 (CurrentState sm) (states sm)
     (transitions sm) [] = Diverged).
Proof.
  intros sm. do 2 (split; [reflexivity|]).
  apply (cyclic_ancestry_never_returns looped 1000 sm [] 0 0 0);
    reflexivity.
Defined.

End FurtherScenarios.
